(** * Harmonizome ETL appyters: gene-set overlap engine and pipeline order

    A shallow embedding of the algorithmic cells of two notebooks,

      - appyters/ABA_Harmonizome_ETL/ABA.ipynb
        ([load_gmt], the universe count, the pairwise Jaccard / Fisher loop,
        the q-value table, the top-association table, and the order of the
        matrix normalisation cells; the reading of the library files and
        the naming of the output files), and
      - appyters/Reactome_Harmonizome_ETL/Reactome.ipynb
        (the symbol re-mapping loop; the pre-processing of the gmt rows,
        the pathway labels and the serialization for the knowledge graph),

    together with the properties the specification states about them and
    further properties of these cells.

    Conventions.  Python [str] is [string]; a character is an [ascii], read
    as a code point below 256.  A Python [dict] is an association list in
    insertion order whose keys are unique; a Python [set] of strings is a
    [gset string].  Python [int] is [Z].  Python floats are idealised as the
    rationals they approximate ([Qc]): the true division [a/(a+b+c)] of two
    ints is its exact quotient.  Exceptions are values of [exn] carried by
    the [result] monad. *)

From Stdlib Require Import Ascii String ZArith QArith Qcanon Permutation Sorted.
From stdpp Require Import gmap strings list fin_sets sorting pretty.

Local Open Scope string_scope.

(** ** Exceptions *)

Inductive exn :=
  | ValueError (msg : string)
  | ZeroDivisionError (msg : string)
  | KeyError (key : list string).

Inductive result (A : Type) :=
  | Ok (a : A)
  | Raise (e : exn).
Arguments Ok {A} a.
Arguments Raise {A} e.

(** Sequencing: the first exception raised ends the computation.  The
    instance gives [result] the notation [x ← r; k]. *)
Global Instance result_bind : MBind result := λ A B k r,
  match r with
  | Ok a => k a
  | Raise e => Raise e
  end.
Global Instance result_ret : MRet result := λ A, Ok.

(** ** Python strings: [str.strip] and [str.split] *)

Module Str.

(** [str.isspace] on one character, for code points below 256. *)
Definition isspace (c : ascii) : bool :=
  let n := nat_of_ascii c in
  (((9 <=? n) && (n <=? 13)) || ((28 <=? n) && (n <=? 32))
   || (n =? 133) || (n =? 160))%nat.

Fixpoint lstrip (s : string) : string :=
  match s with
  | EmptyString => EmptyString
  | String c s' => if isspace c then lstrip s' else s
  end.

Fixpoint rstrip (s : string) : string :=
  match s with
  | EmptyString => EmptyString
  | String c s' =>
      match rstrip s' with
      | EmptyString => if isspace c then EmptyString else String c EmptyString
      | r => String c r
      end
  end.

(** [s.strip()]: leading and trailing whitespace removed. *)
Definition strip (s : string) : string := rstrip (lstrip s).

(** [s.split(sep)] for a one-character separator: the fields between the
    separators, empty fields included; never the empty list. *)
Fixpoint split (sep : ascii) (s : string) : list string :=
  match s with
  | EmptyString => [EmptyString]
  | String c s' =>
      if Ascii.eqb c sep then EmptyString :: split sep s'
      else match split sep s' with
           | [] => [String c EmptyString]
           | f :: fs => String c f :: fs
           end
  end.

(** [s.count(sep)] for a one-character separator. *)
Fixpoint count (sep : ascii) (s : string) : nat :=
  match s with
  | EmptyString => 0
  | String c s' => (if Ascii.eqb c sep then 1 else 0) + count sep s'
  end.

Definition tab : ascii := Ascii.ascii_of_nat 9.

(** [sep.join(fields)] *)
Fixpoint join (sep : ascii) (fields : list string) : string :=
  match fields with
  | [] => EmptyString
  | [f] => f
  | f :: fs => f +:+ String sep (join sep fs)
  end.

(** A line of a tab-separated file, written by its fields. *)
Definition tsv (fields : list string) : string := join tab fields.

End Str.

(** ** Python dictionaries in insertion order *)

Definition dict (V : Type) := list (string * V).

Fixpoint dict_get {V} (d : dict V) (k : string) : option V :=
  match d with
  | [] => None
  | (k', v) :: d' => if decide (k' = k) then Some v else dict_get d' k
  end.

(** [d[k] = v]: an existing key keeps its place and takes the new value, a
    new key goes last. *)
Fixpoint dict_set {V} (d : dict V) (k : string) (v : V) : dict V :=
  match d with
  | [] => [(k, v)]
  | (k', v') :: d' =>
      if decide (k' = k) then (k, v) :: d' else (k', v') :: dict_set d' k v
  end.

Definition keys {V} (d : dict V) : list string := d.*1.
Definition values {V} (d : dict V) : list V := d.*2.

(** [d[k]] as an expression. *)
Definition dict_getitem {V} (d : dict V) (k : string) : result V :=
  match dict_get d k with
  | Some v => Ok v
  | None => Raise (KeyError [k])
  end.

(** ** Gene-set libraries: [load_gmt] *)

Abbreviation geneset := (gset string).
Abbreviation library := (dict (gset string)).

(** The message of the [ValueError] that the starred assignment
    [term, description, *geneset = fields] raises on a short list. *)
Definition not_enough_values (got : nat) : string :=
  "not enough values to unpack (expected at least 2, got " +:+ pretty got +:+ ")".

(** [term, description, *geneset = fields] *)
Definition unpack_line (fields : list string)
  : result (string * string * list string) :=
  match fields with
  | term :: description :: geneset => Ok (term, description, geneset)
  | _ => Raise (ValueError (not_enough_values (length fields)))
  end.

(** The body of the [for line in file] loop, threaded through [gmt]. *)
Fixpoint load_gmt_from (gmt : library) (file : list string) : result library :=
  match file with
  | [] => Ok gmt
  | line :: rest =>
      '(term, description, geneset) ←
         unpack_line (Str.split Str.tab (Str.strip line));
      load_gmt_from (dict_set gmt term (list_to_set geneset)) rest
  end.

Definition load_gmt (file : list string) : result library :=
  load_gmt_from [] file.

(** The fields [load_gmt] sees on a line. *)
Definition fields (line : string) : list string :=
  Str.split Str.tab (Str.strip line).

(** The one exception [load_gmt] can raise. *)
Definition unpack_error : exn := ValueError (not_enough_values 1).

(** The term a line is filed under. *)
Definition term_of (line : string) : string :=
  default EmptyString (head (fields line)).

(** ** Data frames

    A frame of numbers with row labels [index] and column labels [columns].
    Only the operations the notebook uses are modelled:
    [pd.DataFrame(v, index=.., columns=..)], the assignment
    [df.loc[i,j] = v] at labels that exist, and [df.stack()].  A frame made
    from the int 0 takes the quotients assigned to its cells (pandas widens
    the column). *)

Record DataFrame := mkDataFrame {
  index : list string;
  columns : list string;
  cells : gmap (string * string) Qc
}.

Abbreviation label := (string * string)%type.

(** [pd.DataFrame(v, index = index, columns = columns)] *)
Definition DataFrame_const (v : Qc) (index columns : list string) : DataFrame :=
  {| index := index; columns := columns;
     cells := list_to_map ((λ k, (k, v)) <$> list_prod index columns) |}.

(** [df.loc[i,j] = v] *)
Definition loc_set (df : DataFrame) (i j : string) (v : Qc) : DataFrame :=
  {| index := index df; columns := columns df;
     cells := <[(i, j) := v]> (cells df) |}.

(** [df.loc[i,j]] *)
Definition loc (df : DataFrame) (i j : string) : option Qc :=
  cells df !! (i, j).

Global Instance Qc_inhabited : Inhabited Qc := populate 0%Qc.

(** [df.stack()]: one entry per cell, row by row, labelled [(i, j)].  Every
    cell of a frame is filled, so the lookup is total. *)
Definition stack (df : DataFrame) : list (label * Qc) :=
  (λ k, (k, cells df !!! k)) <$> list_prod (index df) (columns df).

(** ** The pairwise Jaccard / Fisher loop *)

(** [set.difference(self, *others)]: the elements of [self] that are in none
    of [others]. *)
Definition set_difference (self : geneset) (others : list geneset) : geneset :=
  foldl (∖) self others.

(** [x / y] on ints. *)
Definition truediv (x y : Z) : result Qc :=
  if decide (y = 0%Z) then Raise (ZeroDivisionError "division by zero")
  else Ok (Qc_of_Z x / Qc_of_Z y)%Qc.

(** A [for] loop whose body may raise, threaded through the state [S]. *)
Fixpoint for_each {A S} (xs : list A) (body : A → S → result S) (s : S)
  : result S :=
  match xs with
  | [] => Ok s
  | x :: xs' => s' ← body x s; for_each xs' body s'
  end.

(** [genes]: the number of distinct genes over both libraries. *)
Definition genes (ds1 ds2 : library) : Z :=
  let genes : geneset := ∅ in
  let genes := foldl (λ genes geneset, genes ∪ geneset) genes (values ds1) in
  let genes := foldl (λ genes geneset, genes ∪ geneset) genes (values ds2) in
  Z.of_nat (size genes).

Record tables := mkTables {
  jaccard : DataFrame;
  fisherp : DataFrame;
  intersect : gmap label geneset
}.

Section SetOverlap.

(** [fisher.pvalue(a, b, c, d).two_tail], from the [fisher] package. *)
Variable fisher_two_tail : Z → Z → Z → Z → Qc.

Definition pair_body (genes : Z) (ds2 : library) (i : string) (iset : geneset)
    (j : string) (t : tables) : result tables :=
  jset ← dict_getitem ds2 j;
  let intersection := iset ∩ jset in
  let a := Z.of_nat (size intersection) in
  let b := Z.of_nat (size (set_difference iset [jset])) in
  let c := Z.of_nat (size (set_difference iset [])) in
  let d := (genes - a - b - c)%Z in
  jac ← truediv a (a + b + c);
  Ok {| jaccard := loc_set (jaccard t) i j jac;
        fisherp := loc_set (fisherp t) i j (fisher_two_tail a b c d);
        intersect := <[(i, j) := intersection]> (intersect t) |}.

Definition row_body (genes : Z) (ds1 ds2 : library) (i : string) (t : tables)
  : result tables :=
  iset ← dict_getitem ds1 i;
  for_each (keys ds2) (pair_body genes ds2 i iset) t.

Definition pairwise_loop (ds1 ds2 : library) : result tables :=
  let genes := genes ds1 ds2 in
  let jaccard := DataFrame_const 0 (keys ds1) (keys ds2) in
  let fisherp := DataFrame_const 0 (keys ds1) (keys ds2) in
  let intersect := ∅ in
  for_each (keys ds1) (row_body genes ds1 ds2)
    {| jaccard := jaccard; fisherp := fisherp; intersect := intersect |}.

End SetOverlap.

(** The four counts [a], [b], [c], [d] that the loop body computes for one
    pair, on their own. *)
Definition contingency (genes : Z) (iset jset : geneset) : Z * Z * Z * Z :=
  let intersection := iset ∩ jset in
  let a := Z.of_nat (size intersection) in
  let b := Z.of_nat (size (set_difference iset [jset])) in
  let c := Z.of_nat (size (set_difference iset [])) in
  let d := (genes - a - b - c)%Z in
  (a, b, c, d).

(** What the loop has left in the tables, for the statements about it. *)
Section Entries.
Variable fisher_two_tail : Z → Z → Z → Z → Qc.
Variables ds1 ds2 : library.

(** What a finished pair has left in the three tables. *)
Definition pair_entry (i j : string) (iset jset : geneset) (t : tables) : Prop :=
  let '(a, b, c, d) := contingency (genes ds1 ds2) iset jset in
  (a + b + c)%Z ≠ 0%Z
  ∧ loc (jaccard t) i j = Some (Qc_of_Z a / Qc_of_Z (a + b + c))%Qc
  ∧ loc (fisherp t) i j = Some (fisher_two_tail a b c d)
  ∧ intersect t !! (i, j) = Some (iset ∩ jset).

Definition pair_done (i j : string) (t : tables) : Prop :=
  ∀ iset jset, dict_get ds1 i = Some iset → dict_get ds2 j = Some jset →
    pair_entry i j iset jset t.

Definition labelled (t : tables) : Prop :=
  index (jaccard t) = keys ds1 ∧ columns (jaccard t) = keys ds2
  ∧ index (fisherp t) = keys ds1 ∧ columns (fisherp t) = keys ds2.

(** The tables before the first pass. *)
Definition initial : tables :=
  {| jaccard := DataFrame_const 0 (keys ds1) (keys ds2);
     fisherp := DataFrame_const 0 (keys ds1) (keys ds2);
     intersect := ∅ |}.

End Entries.

(** The quantities of the specification, for comparison. *)
Module Spec.

Definition jaccard (a b : geneset) : Qc :=
  let i := Z.of_nat (size (a ∩ b)) in
  let only_a := Z.of_nat (size (a ∖ b)) in
  let only_b := Z.of_nat (size (b ∖ a)) in
  (Qc_of_Z i / Qc_of_Z (i + only_a + only_b))%Qc.

Definition contingency (n : Z) (a b : geneset) : Z * Z * Z * Z :=
  let i := Z.of_nat (size (a ∩ b)) in
  let only_a := Z.of_nat (size (a ∖ b)) in
  let only_b := Z.of_nat (size (b ∖ a)) in
  let neither := (n - i - only_a - only_b)%Z in
  (i, only_a, only_b, neither).

End Spec.

(** ** Ranking and sorting of columns *)

(** [sort_values]: the rows in the order [R], by stdpp's merge sort.
    The order of rows that compare equal is left open by pandas (its default
    sort is not stable) and is not that of the input here either; the
    properties are stated up to that order. *)
Definition sort_values {A} (R : relation A) `{!RelDecision R} (l : list A)
  : list A := merge_sort R l.

Definition Qc_of_nat (n : nat) : Qc := Qc_of_Z (Z.of_nat n).

Definition Qc_sum (l : list Qc) : Qc := foldr Qcplus 0%Qc l.

(** [Series.rank()] with its defaults (ascending, [method='average']): the
    values equal to [p] occupy the positions [less+1 .. less+same] of the
    sorted column, and each of them gets the mean of these positions. *)
Definition rank_average (ps : list Qc) (p : Qc) : Qc :=
  let less := length (filter (λ x, x < p)%Qc ps) in
  let same := length (filter (λ x, x = p) ps) in
  (Qc_sum (Qc_of_nat <$> seq (S less) same) / Qc_of_nat same)%Qc.

Definition rank (ps : list Qc) : list Qc := rank_average ps <$> ps.

(** The q-value of [p] in the column [ps]. *)
Definition qvalue (ps : list Qc) (p : Qc) : Qc :=
  (p * Qc_of_nat (length ps) / rank_average ps p)%Qc.

(** ** The q-value table [ftop] *)

Record ftop_row := mkFtop {
  ftop_label : label;
  ftop_p : Qc;
  ftop_q : Qc
}.

(** [ftop['p'] * ftop.shape[0] / ftop['p'].rank()], entry by entry.  The
    product and the quotient are the exact ones; the code rounds each of
    them to a double, so that the value it writes can differ from this one
    in the last place (it can, for one, fall just below [p]).  What is
    proved of the q-values below is the formula, the order of the rows and
    two bounds that the rounding keeps. *)
Definition with_q (stacked : list (label * Qc)) : list ftop_row :=
  let shape0 := length stacked in
  zip_with (λ '(k, p) r,
      {| ftop_label := k; ftop_p := p;
         ftop_q := (p * Qc_of_nat shape0 / r)%Qc |})
    stacked (rank stacked.*2).

(** The order of [sort_values('q')]. *)
Definition by_q : relation ftop_row := λ r1 r2, (ftop_q r1 ≤ ftop_q r2)%Qc.
Global Instance by_q_dec : RelDecision by_q :=
  λ r1 r2, decide (ftop_q r1 ≤ ftop_q r2)%Qc.

Definition ftop (fisherp : DataFrame) : list ftop_row :=
  let ftop := with_q (stack fisherp) in
  sort_values by_q ftop.

(** ** The top-association table [top] *)

Record top_row := mkTop {
  top_label : label;       (* 'Dataset 1 Attribute', 'Dataset 2 Attribute' *)
  top_Jaccard : Qc;
  top_p : Qc;
  top_q : Qc;
  top_intersect : geneset  (* the genes that ','.join writes, as a set *)
}.

(** The order of [sort_values(ascending=False)] on a stacked frame. *)
Definition by_value_desc : relation (label * Qc) := λ r1 r2, (r2.2 ≤ r1.2)%Qc.
Global Instance by_value_desc_dec : RelDecision by_value_desc :=
  λ r1 r2, decide (r2.2 ≤ r1.2)%Qc.

Definition jtop (jaccard : DataFrame) : list (label * Qc) :=
  sort_values by_value_desc (stack jaccard).

(** [pd.concat([jtop, ftop], axis=1)]: the columns of both tables side by
    side, aligned on the labels.  Both tables carry the labels of one and
    the same stacked frame. *)
Definition concat (jtop : list (label * Qc)) (ftop : list ftop_row)
  : list (label * Qc * Qc * Qc) :=
  omap (λ '(k, J),
      r ← find (λ r, bool_decide (ftop_label r = k)) ftop;
      Some (k, J, ftop_p r, ftop_q r)) jtop.

(** The order of [sort_values(['Jaccard','q'], ascending=[False,True])]. *)
Definition by_Jaccard_q : relation (label * Qc * Qc * Qc) := λ r1 r2,
  let '(_, J1, _, q1) := r1 in
  let '(_, J2, _, q2) := r2 in
  (J2 < J1)%Qc ∨ (J1 = J2 ∧ (q1 ≤ q2)%Qc).
Global Instance by_Jaccard_q_dec : RelDecision by_Jaccard_q.
Proof.
  intros [[[k1 J1] p1] q1] [[[k2 J2] p2] q2]. unfold by_Jaccard_q.
  apply or_dec; [apply _|apply and_dec; apply _].
Defined.

(** [intersect[i, j]] *)
Definition intersect_getitem (intersect : gmap label geneset) (k : label)
  : result geneset :=
  match intersect !! k with
  | Some s => Ok s
  | None => Raise (KeyError [k.1; k.2])
  end.

(** [top['intersect'] = top.apply(..., axis=1)] on a frame without rows:
    [apply] has no row to call the function on and returns a copy of the
    frame, five columns wide, and the assignment of a frame to the one
    column [intersect] raises [ValueError].  The message is that of
    pandas 2; it differs between versions. *)
Definition apply_empty_frame : exn :=
  ValueError
    "Cannot set a DataFrame with multiple columns to the single column intersect".

Definition top (t : tables) : result (list top_row) :=
  let top := take 1000 (sort_values by_Jaccard_q
                          (concat (jtop (jaccard t)) (ftop (fisherp t)))) in
  match top with
  | [] => Raise apply_empty_frame
  | _ =>
      mapM (λ '(k, J, p, q),
          s ← intersect_getitem (intersect t) k;
          Ok {| top_label := k; top_Jaccard := J; top_p := p; top_q := q;
                top_intersect := s |}) top
  end.

(** The rows of [top] before they are cut and annotated. *)
Definition ranked (t : tables) : list (label * Qc * Qc * Qc) :=
  sort_values by_Jaccard_q (concat (jtop (jaccard t)) (ftop (fisherp t))).

Definition annotate (t : tables) (row : label * Qc * Qc * Qc) : top_row :=
  let '(k, J, p, q) := row in
  {| top_label := k; top_Jaccard := J; top_p := p; top_q := q;
     top_intersect := default ∅ (intersect t !! k) |}.

(** ** The order of the normalisation cells (ABA notebook) *)

Module uf.

(** [harmonizome.utility_functions], imported as [uf]: the matrix stages
    the cells call.  The module is not part of the sources, so its
    functions are taken as they come. *)
Record t (Matrix : Type) := mk {
  remove_impute : Matrix → Matrix;
  log2 : Matrix → Matrix;
  quantile_normalize : Matrix → Matrix;
  zscore : Matrix → Matrix;
  standardized_matrix : Matrix → Matrix;
  ternary_matrix : Matrix → Matrix
}.
Arguments mk {Matrix}.
Arguments remove_impute {Matrix}.
Arguments log2 {Matrix}.
Arguments quantile_normalize {Matrix}.
Arguments zscore {Matrix}.
Arguments standardized_matrix {Matrix}.
Arguments ternary_matrix {Matrix}.

End uf.

Module ABA.

(** The notebook variables the cells assign; a variable is [None] until
    its cell has run. *)
Record vars (Matrix : Type) := mkVars {
  matrix : Matrix;
  standard_matrix : option Matrix;
  ternary_matrix : option Matrix
}.
Arguments mkVars {Matrix}.
Arguments matrix {Matrix}.
Arguments standard_matrix {Matrix}.
Arguments ternary_matrix {Matrix}.

Section Cells.
Context {Matrix : Type} (U : uf.t Matrix).

(** [matrix = f(matrix)] *)
Definition assign_matrix (f : Matrix → Matrix) (v : vars Matrix) : vars Matrix :=
  {| matrix := f (matrix v);
     standard_matrix := standard_matrix v;
     ternary_matrix := ternary_matrix v |}.

(** [standard_matrix = uf.standardized_matrix(matrix)] *)
Definition cell_standard_matrix (v : vars Matrix) : vars Matrix :=
  {| matrix := matrix v;
     standard_matrix := Some (uf.standardized_matrix U (matrix v));
     ternary_matrix := ternary_matrix v |}.

(** [ternary_matrix = uf.ternary_matrix(standard_matrix)]; the variable
    read has been assigned by the cell before. *)
Definition cell_ternary_matrix (v : vars Matrix) : vars Matrix :=
  {| matrix := matrix v;
     standard_matrix := standard_matrix v;
     ternary_matrix := uf.ternary_matrix U <$> standard_matrix v |}.

(** The assigning cells from "Remove Data that is More Than 95% Missing"
    to "Create Ternary Matrix", in notebook order.  The cells in between
    only read [matrix] (display, histograms, saved files, gene and
    attribute lists). *)
Definition cells : list (vars Matrix → vars Matrix) :=
  [ assign_matrix (uf.remove_impute U);
    assign_matrix (uf.log2 U);
    assign_matrix (uf.quantile_normalize U);
    assign_matrix (uf.zscore U);
    cell_standard_matrix;
    cell_ternary_matrix ].

Definition run (m : Matrix) : vars Matrix :=
  foldl (λ v cell, cell v) (mkVars m None None) cells.

End Cells.

(** The stages as labels on the matrix they produced: a matrix is the list
    of stages applied so far, latest first. *)
Definition history : uf.t (list string) :=
  uf.mk (cons "remove_impute") (cons "log2") (cons "quantile_normalize")
        (cons "zscore") (cons "standardized_matrix") (cons "ternary_matrix").

End ABA.

(** ** The symbol re-mapping loop (Reactome notebook) *)

Module Reactome.

Section Remap.
Context {DataFrame : Type}.
(** [df.shape[0]] *)
Variable shape0 : DataFrame → nat.
(** [uf.map_symbols(df, symbol_lookup, remove_duplicates=True)] *)
Variable map_symbols : DataFrame → DataFrame.

Record state := mkState {
  dupes : Z;
  count : Z;
  df : DataFrame;
  calls : nat   (* how often [map_symbols] has been invoked *)
}.

(** [while (dupes-df.shape[0]-count) != 0: ...]; [None] when [fuel] tests
    of the condition do not reach the exit. *)
Fixpoint while_loop (fuel : nat) (s : state) : option state :=
  match fuel with
  | O => None
  | S fuel' =>
      if decide ((dupes s - Z.of_nat (shape0 (df s)) - count s)%Z ≠ 0%Z) then
        let df' := map_symbols (df s) in
        let count' := (dupes s - Z.of_nat (shape0 df'))%Z in
        while_loop fuel'
          {| dupes := dupes s; count := count'; df := df';
             calls := S (calls s) |}
      else Some s
  end.

Definition remap (fuel : nat) (df0 : DataFrame) : option state :=
  let dupes := Z.of_nat (shape0 df0) in
  let count := 0%Z in
  let df := map_symbols df0 in
  while_loop fuel {| dupes := dupes; count := count; df := df; calls := 1 |}.

End Remap.

(** Of rows that are equal the first is kept. *)
Fixpoint drop_duplicates {A} `{EqDecision A} (l : list A) : list A :=
  match l with
  | [] => []
  | x :: l' => x :: filter (λ y, y ≠ x) (drop_duplicates l')
  end.

(** Modelled from the spec: [uf.map_symbols] is imported from the
    [harmonizome] package, which is not part of the sources.  Every row
    label is looked up in the table; a row whose label is absent from the
    table is dropped; rows that share their symbol (and their pathway)
    afterwards are merged into the first of them.  A frame is the list of
    its rows, gene symbol first. *)
Definition map_symbols (symbol_lookup : gmap string string)
    (df : list (string * string)) : list (string * string) :=
  drop_duplicates
    (omap (λ '(gene, pathway),
        symbol ← symbol_lookup !! gene; Some (symbol, pathway)) df).

End Reactome.

(** ** Reading a library file and naming the output files (ABA notebook) *)

(** A line boundary of [str.splitlines], for code points below 256: the
    characters 10 to 13, 28 to 30 and 133. *)
Definition is_linebreak (c : ascii) : bool :=
  let n := nat_of_ascii c in
  (((10 <=? n) && (n <=? 13)) || ((28 <=? n) && (n <=? 30)) || (n =? 133))%nat.

Definition CR : ascii := Ascii.ascii_of_nat 13.
Definition LF : ascii := Ascii.ascii_of_nat 10.

(** [s.splitlines()]: the lines of [s] without their boundaries; a carriage
    return followed by a line feed is one boundary, and the text after the
    last boundary is a line only when it is not empty. *)
Fixpoint splitlines (s : string) : list string :=
  match s with
  | EmptyString => []
  | String c s' =>
      if is_linebreak c then
        match s' with
        | String c' s'' =>
            if Ascii.eqb c CR && Ascii.eqb c' LF
            then EmptyString :: splitlines s''
            else EmptyString :: splitlines s'
        | EmptyString => [EmptyString]
        end
      else
        match splitlines s' with
        | [] => [String c EmptyString]
        | l :: ls => String c l :: ls
        end
  end.

(** [f = f.read().splitlines()] followed by [load_gmt(f)], on the decoded
    text of the file. *)
Definition read_gmt (text : string) : result library :=
  load_gmt (splitlines text).

Definition dot : ascii := Ascii.ascii_of_nat 46.

(** [gmt.split('.')[-1]=='gz']: whether the file is opened with [gzip]. *)
Definition is_gz (gmt : string) : bool :=
  bool_decide (last (Str.split dot gmt) = Some "gz").

(** [gmt.split('.')[0]] *)
Definition stem (gmt : string) : string :=
  default EmptyString (head (Str.split dot gmt)).

(** [output = gmt1+'_'+gmt2+'_'], after both names were cut to their stems. *)
Definition output (gmt1 gmt2 : string) : string :=
  stem gmt1 +:+ "_" +:+ stem gmt2 +:+ "_".

(** ** Texts and predicates the properties speak of *)

(** A string that does not start with whitespace. *)
Definition clean_start (s : string) : Prop :=
  match s with
  | EmptyString => True
  | String c _ => Str.isspace c = false
  end.

(** A string without a line boundary. *)
Fixpoint one_line (s : string) : bool :=
  match s with
  | EmptyString => true
  | String c s' => negb (is_linebreak c) && one_line s'
  end.

(** The text of a file: every line followed by the line end [eol]. *)
Fixpoint unlines (eol : string) (lines : list string) : string :=
  match lines with
  | [] => EmptyString
  | l :: ls => l +:+ eol +:+ unlines eol ls
  end.

(** The set whose size [genes] is. *)
Definition universe (ds1 ds2 : library) : geneset :=
  foldl (λ genes geneset, genes ∪ geneset)
    (foldl (λ genes geneset, genes ∪ geneset) ∅ (values ds1)) (values ds2).

(** The keys of [intersect] are pairs of a term of each library. *)
Definition paired (ds1 ds2 : library) (t : tables) : Prop :=
  ∀ k, is_Some (intersect t !! k) → k.1 ∈ keys ds1 ∧ k.2 ∈ keys ds2.

(** ** Reactome: rows of the gmt file *)

Module Pre.

Definition space : ascii := Ascii.ascii_of_nat 32.

(** One row of the frame: [Pathway] ([None] is pandas' missing value) and
    [Gene Symbol]. *)
Definition row : Type := option string * list string.

(** [df[0].str.split('\t').str[0] + ' ' + df[0].str.split('\t').str[1]] and
    [df[0].str.split('\t').str[2:]] for one string of column 0. *)
Definition split_row (s : string) : row :=
  let parts := Str.split Str.tab s in
  (match parts with
   | name :: id :: _ => Some (name +:+ String space id)
   | _ => None
   end,
   drop 2 parts).

(** [df.drop_duplicates(key)]: of the rows with one key the first stays. *)
Fixpoint drop_duplicates_by {A K} `{EqDecision K} (key : A → K) (l : list A)
  : list A :=
  match l with
  | [] => []
  | x :: l' => x :: filter (λ y, key y ≠ key x) (drop_duplicates_by key l')
  end.

(** The column [Genes]: [' '.join] of the gene symbols. *)
Definition Genes (r : row) : string := Str.join space r.2.

Section Cell.
(** [s.normalize('NFKD').encode('ascii', errors='ignore').decode('utf-8')] *)
Variable to_ascii : string → string.

Definition parse (s : string) : row :=
  let '(pathway, genes) := split_row s in (to_ascii <$> pathway, genes).

Definition preprocess (column0 : list string) : list row :=
  let df := parse <$> column0 in
  drop_duplicates_by Genes df.

(** The number in the message "Found .. gene sets with duplicate genes". *)
Definition found (column0 : list string) : Z :=
  let dupes := Z.of_nat (length column0) in
  (dupes - Z.of_nat (length (preprocess column0)))%Z.

End Cell.

(** [df.explode('Gene Symbol')] and [df.set_index('Gene Symbol')]: one row
    per gene, gene first; a row without genes stays, with a missing gene. *)
Definition explode (df : list row) : list (option string * option string) :=
  r ← df;
  match r.2 with
  | [] => [(None, r.1)]
  | genes => (λ gene, (Some gene, r.1)) <$> genes
  end.

End Pre.

(** ** Reactome: pathway labels *)

Module Label.

(** A word and the words that follow it. *)
Definition cons_word (w : string) (ws : list string) : list string :=
  match w with
  | EmptyString => ws
  | _ => w :: ws
  end.

(** The word (maybe empty) that starts the string, and the words after the
    next whitespace. *)
Fixpoint split_ws (s : string) : string * list string :=
  match s with
  | EmptyString => (EmptyString, [])
  | String c s' =>
      let '(w, ws) := split_ws s' in
      if Str.isspace c then (EmptyString, cons_word w ws) else (String c w, ws)
  end.

(** [str.split(s)]: the words between runs of whitespace. *)
Definition words (s : string) : list string :=
  let '(w, ws) := split_ws s in cons_word w ws.

(** The label of a pathway: [name + ' ' + id]. *)
Definition label (name id : string) : string := name +:+ String Pre.space id.

(** [.apply(str.split)[:].str[:-1].apply(' '.join)] for one label. *)
Definition Pathway (index : string) : string :=
  Str.join Pre.space (removelast (words index)).

(** [.apply(str.split)[:].str[-1]] for one label; [None] is the missing
    value pandas gives for a list without elements. *)
Definition Pathway_ID (index : string) : option string := last (words index).

(** A string with no whitespace in it and at least one character. *)
Fixpoint no_space (s : string) : bool :=
  match s with
  | EmptyString => true
  | String c s' => negb (Str.isspace c) && no_space s'
  end.

Definition word (s : string) : bool :=
  no_space s && negb (bool_decide (s = EmptyString)).

(** [s.normalize('NFKD').encode('ascii', errors='ignore').decode('utf-8')]
    on one character, for code points below 256.  An ASCII character
    stays.  Of the others, a character with a decomposition leaves the
    ASCII characters of its decomposition (a letter loses its accent, the
    no-break space and the spacing accents leave a blank, a fraction leaves
    its digits), and a character without one leaves nothing. *)
Definition fold_char (c : ascii) : string :=
  match N_of_ascii c with
  | 160 | 168 | 175 | 180 | 184 => " "
  | 170 => "a"
  | 178 => "2"
  | 179 => "3"
  | 185 => "1"
  | 186 => "o"
  | 188 => "14"
  | 189 => "12"
  | 190 => "34"
  | 192 | 193 | 194 | 195 | 196 | 197 => "A"
  | 199 => "C"
  | 200 | 201 | 202 | 203 => "E"
  | 204 | 205 | 206 | 207 => "I"
  | 209 => "N"
  | 210 | 211 | 212 | 213 | 214 => "O"
  | 217 | 218 | 219 | 220 => "U"
  | 221 => "Y"
  | 224 | 225 | 226 | 227 | 228 | 229 => "a"
  | 231 => "c"
  | 232 | 233 | 234 | 235 => "e"
  | 236 | 237 | 238 | 239 => "i"
  | 241 => "n"
  | 242 | 243 | 244 | 245 | 246 => "o"
  | 249 | 250 | 251 | 252 => "u"
  | 253 | 255 => "y"
  | n => if (n <? 128)%N then String c EmptyString else EmptyString
  end%N.

(** The same on a string: the characters are folded one by one (the
    reordering of accents that the normal form asks for touches characters
    that are dropped). *)
Fixpoint to_ascii (s : string) : string :=
  match s with
  | EmptyString => EmptyString
  | String c s' => fold_char c +:+ to_ascii s'
  end.

(** A string of ASCII characters. *)
Fixpoint is_ascii (s : string) : bool :=
  match s with
  | EmptyString => true
  | String c s' => (N_of_ascii c <? 128)%N && is_ascii s'
  end.

End Label.

(** ** Reactome: serialization for the knowledge graph *)

Module KG.

(** A value of [nodes]: a dict with one key, [node_name], and under it the
    type and the properties. *)
Record node := mkNode {
  node_name : string;
  node_type : string;
  node_id : string;
  node_label : string;
  node_URI : string
}.

Record edge := mkEdge {
  source : string;
  relation : string;
  target : string;
  edge_id : string;
  source_id : string;
  target_id : string;
  directed : bool
}.

(** [binary_matrix]: its column labels and its rows, each with its label
    in the index and its cells as [to_numpy(dtype=np.int_)] gives them. *)
Record frame := mkFrame {
  columns : list string;
  rows : list (string * list Z)
}.

Section Serialize.
Context {ID : Type}.
(** [str] of a gene identifier *)
Variable str : ID → string.
Variable geneid_lookup : dict ID.
(** The column [index] of [attribute_list.copy(deep=True).reset_index()] *)
Variable index : list string.

(** [str] of a cell of the column [Pathway ID] *)
Definition str_cell (v : option string) : string := default "nan" v.

(** One column of [pathwayid_lookup.set_index('index').to_dict()] *)
Definition to_dict {V} (column : string → V) : dict V :=
  foldl (λ d i, dict_set d i (column i)) [] index.

Definition Pathway : dict string := to_dict Label.Pathway.
Definition Pathway_ID : dict (option string) := to_dict Label.Pathway_ID.

(** The values the two loops write into [nodes]. *)
Definition gene_entry (gene : string) (id : ID) : node :=
  mkNode gene "gene" (str id) gene
    ("https://www.ncbi.nlm.nih.gov/gene/" +:+ str id).

Definition pathway_entry (name : string) (id : option string) : node :=
  mkNode name "pathway" (str_cell id) name
    ("https://www.reactome.org/content/detail/" +:+ str_cell id).

(** The bodies of the two loops that fill [nodes]; a subscript that the
    source writes more than once is looked up once. *)
Definition gene_node (gene : string) (nodes : dict node) : result (dict node) :=
  id ← dict_getitem geneid_lookup gene;
  Ok (dict_set nodes gene (gene_entry gene id)).

Definition pathway_node (pathway : string) (nodes : dict node)
  : result (dict node) :=
  name ← dict_getitem Pathway pathway;
  id ← dict_getitem Pathway_ID pathway;
  Ok (dict_set nodes name (pathway_entry name id)).

Definition nodes : result (dict node) :=
  nodes ← for_each (keys geneid_lookup) gene_node [];
  for_each (keys Pathway) pathway_node nodes.

Variable binary_matrix : frame.

(** [[*binary_matrix.index[arr[:, i] == 1]]] *)
Definition sources (i : nat) : list string :=
  (filter (λ r, r.2 !! i = Some 1%Z) (rows binary_matrix)).*1.

(** The dict that is appended to [edges]. *)
Definition edge_entry (source target : string) (source_id : ID)
    (target_id : option string) : edge :=
  mkEdge source "participates in" target (source +:+ " -> " +:+ target)
    (str source_id) (str_cell target_id) true.

Definition edge_body (column source : string) (edges : list edge)
  : result (list edge) :=
  target ← dict_getitem Pathway column;
  source_id ← dict_getitem geneid_lookup source;
  target_id ← dict_getitem Pathway_ID column;
  Ok (edges ++ [edge_entry source target source_id target_id])%list.

(** [for i in range(h)], with the label of column [i] *)
Definition edges : result (list edge) :=
  for_each (imap pair (columns binary_matrix))
    (λ '(i, column) edges, for_each (sources i) (edge_body column) edges) [].

(** The cells of [binary_matrix] that hold 1, column by column and within a
    column in the order of the rows: column label and row label. *)
Definition ones : list (string * string) :=
  ic ← imap pair (columns binary_matrix); pair ic.2 <$> sources ic.1.

End Serialize.

End KG.

(** ** Example inputs *)

(** Scenario 1 of the specification: [{A,B,C}] against [{B,C,D}]. *)
Definition abc : geneset := {["A"; "B"; "C"]}.
Definition bcd : geneset := {["B"; "C"; "D"]}.
Definition lib_abc : library := [("x", abc)].
Definition lib_bcd : library := [("y", bcd)].

(** A stand-in for the Fisher test where a closed example needs one: the
    more genes are shared, the smaller the value. *)
Definition pvalue_stand_in : Z → Z → Z → Z → Qc :=
  λ a _ _ _, (1 / (1 + Qc_of_Z a))%Qc.

(** Two libraries of two sets each. *)
Definition lib_xz : library := [("x", abc); ("z", bcd)].
Definition lib_yw : library := [("y", bcd); ("w", {["D"]})].

Definition third : Qc := (Qc_of_Z 1 / Qc_of_Z 3)%Qc.
Definition half : Qc := (Qc_of_Z 1 / Qc_of_Z 2)%Qc.

Definition lib_empty_x : library := [("x", ∅)].
Definition lib_empty_y : library := [("y", ∅)].

Definition empty_tables : tables :=
  {| jaccard := DataFrame_const 0 [] [];
     fisherp := DataFrame_const 0 [] [];
     intersect := ∅ |}.

(** The tables of the two libraries of two sets. *)
Definition tables_xz_yw : tables :=
  match pairwise_loop pvalue_stand_in lib_xz lib_yw with
  | Ok t => t
  | Raise _ => empty_tables
  end.

(** A lookup table in which symbols are renamed in a chain. *)
Definition symbol_lookup : gmap string string :=
  list_to_map [("a", "b"); ("b", "c"); ("c", "d"); ("d", "d")].

Definition pathway_rows : list (string * string) :=
  [("a", "P"); ("b", "P"); ("c", "P"); ("d", "P")].

(** A library file of three lines, the first term written twice. *)
Definition gmt_lines : list string :=
  [Str.tsv ["T"; "d"; "A"; "B"]; Str.tsv ["U"; "d"; "C"]; Str.tsv ["T"; "e"]].

Definition gmt_library : library := [("T", ∅); ("U", {["C"]})].

(** The tables of the libraries of scenario 1. *)
Definition tables_abc_bcd : tables :=
  match pairwise_loop pvalue_stand_in lib_abc lib_bcd with
  | Ok t => t
  | Raise _ => empty_tables
  end.

(** Two pathway names with a character that is not ASCII: the next line
    character between [a] and [b], and [cafe] with an accent. *)
Definition name_nel : string := "a" +:+ String (Ascii.ascii_of_nat 133) "b".
Definition name_accent : string := "caf" +:+ String (Ascii.ascii_of_nat 233) "".

(** Two pathways, two genes and the matrix of their memberships. *)
Definition kg_index : list string :=
  ["Apoptosis R-HSA-109581"; "Cell Cycle R-HSA-1640170"].

Definition kg_geneids : dict Z := [("TP53", 7157%Z); ("BAX", 581%Z)].

Definition kg_matrix : KG.frame :=
  KG.mkFrame kg_index [("TP53", [1; 1]%Z); ("BAX", [1; 0]%Z)].

Definition kg_nodes : dict KG.node :=
  match KG.nodes pretty kg_geneids kg_index with
  | Ok ns => ns
  | Raise _ => []
  end.

Definition kg_edges : list KG.edge :=
  match KG.edges pretty kg_geneids kg_index kg_matrix with
  | Ok es => es
  | Raise _ => []
  end.

(** * Properties *)

(** ** Dictionaries *)

Section DictFacts.
Context {V : Type}.
Implicit Types (d : dict V) (k : string) (v : V).

Lemma dict_get_set_eq d k v : dict_get (dict_set d k v) k = Some v.
Proof.
  induction d as [|[k' v'] d IH]; simpl.
  - by rewrite decide_True.
  - destruct (decide (k' = k)) as [->|Hne]; simpl.
    + by rewrite decide_True.
    + by rewrite decide_False.
Qed.

Lemma dict_get_set_ne d k k' v :
  k ≠ k' → dict_get (dict_set d k v) k' = dict_get d k'.
Proof.
  intros Hne. induction d as [|[k0 v0] d IH]; simpl.
  - by rewrite decide_False.
  - destruct (decide (k0 = k)) as [->|Hne0]; simpl.
    + by rewrite !decide_False.
    + destruct (decide (k0 = k')); [done|apply IH].
Qed.



Lemma dict_get_Some_keys d k v : dict_get d k = Some v → k ∈ keys d.
Proof.
  unfold keys. induction d as [|[k0 v0] d IH]; simpl; [done|].
  destruct (decide (k0 = k)) as [->|Hne]; intros H.
  - apply elem_of_cons. by left.
  - apply elem_of_cons. right. by apply IH.
Qed.

Lemma keys_dict_get d k : k ∈ keys d → is_Some (dict_get d k).
Proof.
  unfold keys. induction d as [|[k0 v0] d IH]; simpl.
  - by intros ?%elem_of_nil.
  - intros [->|Hin]%elem_of_cons.
    + rewrite decide_True; eauto.
    + destruct (decide (k0 = k)); eauto.
Qed.

Lemma keys_nonempty d : d ≠ [] → ∃ k, k ∈ keys d.
Proof.
  destruct d as [|[k v] d]; [done|]. intros _. exists k. apply list_elem_of_here.
Qed.

End DictFacts.

(** ** Strings *)

Module StrFacts.
Import Str.

Lemma length_split sep s : length (split sep s) = S (count sep s).
Proof.
  induction s as [|c s IH]; simpl; [done|].
  destruct (Ascii.eqb c sep); simpl; [by rewrite IH|].
  destruct (split sep s); simpl in *; lia.
Qed.

Lemma count_lstrip sep s : (count sep (lstrip s) ≤ count sep s)%nat.
Proof.
  induction s as [|c s IH]; simpl; [done|].
  destruct (isspace c); simpl; lia.
Qed.

Lemma count_rstrip sep s : (count sep (rstrip s) ≤ count sep s)%nat.
Proof.
  induction s as [|c s IH]; simpl; [done|].
  destruct (rstrip s) eqn:E; simpl in *.
  - destruct (isspace c); simpl; lia.
  - lia.
Qed.

Lemma length_split_strip sep s :
  (length (split sep (strip s)) ≤ length (split sep s))%nat.
Proof.
  rewrite !length_split. unfold strip.
  pose proof (count_rstrip sep (lstrip s)). pose proof (count_lstrip sep s). lia.
Qed.

End StrFacts.

(** ** [load_gmt] *)

Example load_gmt_two_lines :
  load_gmt [Str.tsv ["T1"; "d"; "A"; "B"]; Str.tsv ["T2"; "d"]]
  = Ok [("T1", {["A"; "B"]}); ("T2", ∅)].
Proof. vm_compute. reflexivity. Qed.

Lemma unpack_line_fields line :
  match fields line with
  | term :: description :: geneset =>
      unpack_line (fields line) = Ok (term, description, geneset)
  | _ => unpack_line (fields line) = Raise unpack_error
  end.
Proof.
  pose proof (StrFacts.length_split Str.tab (Str.strip line)) as Hlen.
  unfold fields in *. destruct (Str.split _ _) as [|f1 [|f2 fs]]; simpl in *;
    [lia|done|done].
Qed.

Lemma unpack_line_short line :
  (length (fields line) < 2)%nat → unpack_line (fields line) = Raise unpack_error.
Proof.
  intros Hlen. pose proof (unpack_line_fields line) as H.
  destruct (fields line) as [|f1 [|f2 fs]]; simpl in *; [done|done|lia].
Qed.

Lemma load_gmt_from_short gmt file :
  Exists (λ line, (length (fields line) < 2)%nat) file →
  load_gmt_from gmt file = Raise unpack_error.
Proof.
  intros Hex. revert gmt. induction file as [|line rest IH]; intros gmt.
  - by apply Exists_nil in Hex.
  - simpl. fold (fields line).
    pose proof (unpack_line_fields line) as Hl.
    destruct (fields line) as [|f1 [|f2 fs]] eqn:E; rewrite Hl; simpl; try done.
    apply IH. apply Exists_cons in Hex as [Hh|Ht]; [|done].
    rewrite E in Hh. simpl in Hh. lia.
Qed.

Lemma load_gmt_from_raise gmt file e :
  load_gmt_from gmt file = Raise e →
  e = unpack_error ∧ Exists (λ line, (length (fields line) < 2)%nat) file.
Proof.
  revert gmt. induction file as [|line rest IH]; intros gmt; simpl; [done|].
  fold (fields line). pose proof (unpack_line_fields line) as Hl.
  destruct (fields line) as [|f1 [|f2 fs]] eqn:E; rewrite Hl; simpl.
  - intros [= <-]. split; [done|]. apply Exists_cons_hd. rewrite E. simpl. lia.
  - intros [= <-]. split; [done|]. apply Exists_cons_hd. rewrite E. simpl. lia.
  - intros H. apply IH in H as [-> H]. split; [done|]. by apply Exists_cons_tl.
Qed.




(** ** Loops that may raise *)

Section ForEach.
Context {A S : Type} (body : A → S → result S).

Lemma for_each_preserves (P : S → Prop) xs s s' :
  (∀ x s s', x ∈ xs → body x s = Ok s' → P s → P s') →
  for_each xs body s = Ok s' → P s → P s'.
Proof.
  intros Hbody. revert s. induction xs as [|x xs IH]; intros s; simpl.
  - by intros [= <-].
  - destruct (body x s) as [s1|e] eqn:E; simpl; [|done].
    intros Hloop Hs. apply (IH (λ y s s' Hy, Hbody y s s' (list_elem_of_further _ _ _ Hy)) s1 Hloop).
    eapply Hbody; [apply list_elem_of_here|done..].
Qed.

Lemma for_each_establishes (Q : A → S → Prop) xs s s' :
  (∀ x s s', x ∈ xs → body x s = Ok s' → Q x s') →
  (∀ x y s s', y ∈ xs → body y s = Ok s' → Q x s → Q x s') →
  for_each xs body s = Ok s' → ∀ x, x ∈ xs → Q x s'.
Proof.
  intros Hest Hpres. revert s. induction xs as [|x xs IH]; intros s; simpl.
  - intros _ y Hy. by apply elem_of_nil in Hy.
  - destruct (body x s) as [s1|e] eqn:E; simpl; [|done].
    intros Hloop y [->|Hy]%elem_of_cons.
    + apply (for_each_preserves (Q x) xs s1 s'); [|done|].
      * intros z t t' Hz. apply Hpres. by apply list_elem_of_further.
      * eapply Hest; [apply list_elem_of_here|done].
    + apply (IH (λ z t t' Hz, Hest z t t' (list_elem_of_further _ _ _ Hz))
                (λ z w t t' Hw, Hpres z w t t' (list_elem_of_further _ _ _ Hw)) s1);
        done.
Qed.

Lemma for_each_raise (E : exn → Prop) xs s e :
  (∀ x s e, x ∈ xs → body x s = Raise e → E e) →
  for_each xs body s = Raise e → E e.
Proof.
  intros Hbody. revert s. induction xs as [|x xs IH]; intros s; simpl; [done|].
  destruct (body x s) as [s1|e1] eqn:Eb; simpl.
  - apply IH. intros z t e' Hz. apply Hbody. by apply list_elem_of_further.
  - intros [= <-]. eapply Hbody; [apply list_elem_of_here|done].
Qed.

End ForEach.

(** ** The counts of one pair *)

Lemma size_inter_diff (s t : geneset) :
  (size (s ∩ t) + size (s ∖ t) = size s)%nat.
Proof.
  pose proof (size_difference_alt (C:=gset string) s t).
  assert (size (s ∩ t) ≤ size s)%nat
    by apply subseteq_size, intersection_subseteq_l.
  lia.
Qed.

(** [set.difference(iset)] has no other set to take away: it is [iset]. *)
Lemma contingency_counts genes iset jset :
  contingency genes iset jset
  = (Z.of_nat (size (iset ∩ jset)),
     Z.of_nat (size (iset ∖ jset)),
     Z.of_nat (size iset),
     (genes - 2 * Z.of_nat (size iset))%Z).
Proof.
  unfold contingency, set_difference. simpl.
  pose proof (size_inter_diff iset jset). f_equal. lia.
Qed.

Lemma contingency_denominator genes iset jset a b c d :
  contingency genes iset jset = (a, b, c, d) →
  (a + b + c = 2 * Z.of_nat (size iset))%Z.
Proof.
  rewrite contingency_counts. intros [= <- <- <- <-].
  pose proof (size_inter_diff iset jset). lia.
Qed.

(** ** The pairwise loop *)

Section SetOverlapFacts.
Variable fisher_two_tail : Z → Z → Z → Z → Qc.
Variables ds1 ds2 : library.

Local Abbreviation n := (genes ds1 ds2).
Local Abbreviation pair_entry := (pair_entry fisher_two_tail ds1 ds2).
Local Abbreviation pair_done := (pair_done fisher_two_tail ds1 ds2).
Local Abbreviation labelled := (labelled ds1 ds2).
Local Abbreviation initial := (initial ds1 ds2).

Lemma pair_body_counts i iset j t :
  pair_body fisher_two_tail n ds2 i iset j t
  = (jset ← dict_getitem ds2 j;
     let '(a, b, c, d) := contingency n iset jset in
     jac ← truediv a (a + b + c);
     Ok {| jaccard := loc_set (jaccard t) i j jac;
           fisherp := loc_set (fisherp t) i j (fisher_two_tail a b c d);
           intersect := <[(i, j) := iset ∩ jset]> (intersect t) |}).
Proof. reflexivity. Qed.

Lemma pair_body_Ok i iset j t t' :
  dict_get ds1 i = Some iset →
  pair_body fisher_two_tail n ds2 i iset j t = Ok t' →
  pair_done i j t'
  ∧ (∀ i' j', pair_done i' j' t → pair_done i' j' t')
  ∧ (labelled t → labelled t').
Proof.
  intros Hi. rewrite pair_body_counts. unfold dict_getitem.
  destruct (dict_get ds2 j) as [jset|] eqn:Hj; [|done].
  unfold mbind, result_bind at 1.
  destruct (contingency n iset jset) as [[[a b] c] d] eqn:Hc.
  unfold truediv. destruct (decide ((a + b + c)%Z = 0%Z)) as [|Hden]; [done|].
  intros [= <-].
  assert (pair_entry i j iset jset
    {| jaccard := loc_set (jaccard t) i j (Qc_of_Z a / Qc_of_Z (a + b + c));
       fisherp := loc_set (fisherp t) i j (fisher_two_tail a b c d);
       intersect := <[(i, j):=iset ∩ jset]> (intersect t) |}) as Hnew.
  { unfold pair_entry. rewrite Hc. unfold loc, loc_set. simpl.
    rewrite !lookup_insert_eq. done. }
  split; [|split].
  - intros iset' jset' Hi' Hj'. by simplify_eq.
  - intros i' j' Hdone. destruct (decide ((i, j) = (i', j'))) as [[= <- <-]|Hne].
    + intros iset' jset' Hi' Hj'. by simplify_eq.
    + intros iset' jset' Hi' Hj'. specialize (Hdone iset' jset' Hi' Hj').
      unfold pair_entry in *.
      destruct (contingency n iset' jset') as [[[a' b'] c'] d'].
      unfold loc, loc_set in *. simpl. by rewrite !lookup_insert_ne.
  - unfold labelled. simpl. done.
Qed.

Lemma pair_body_Raise i iset j t e :
  j ∈ keys ds2 →
  pair_body fisher_two_tail n ds2 i iset j t = Raise e →
  e = ZeroDivisionError "division by zero" ∧ size iset = 0%nat.
Proof.
  intros Hj. rewrite pair_body_counts. unfold dict_getitem.
  destruct (keys_dict_get ds2 j Hj) as [jset ->].
  unfold mbind, result_bind at 1.
  destruct (contingency n iset jset) as [[[a b] c] d] eqn:Hc.
  apply contingency_denominator in Hc.
  unfold truediv. destruct (decide ((a + b + c)%Z = 0%Z)) as [Hz|Hden]; [|done].
  intros [= <-]. split; [done|lia].
Qed.

Lemma row_body_Ok i t t' :
  row_body fisher_two_tail n ds1 ds2 i t = Ok t' →
  (∀ j, j ∈ keys ds2 → pair_done i j t')
  ∧ (∀ i' j', pair_done i' j' t → pair_done i' j' t')
  ∧ (labelled t → labelled t').
Proof.
  unfold row_body, dict_getitem.
  destruct (dict_get ds1 i) as [iset|] eqn:Hi; simpl; [|done].
  intros Hloop. split; [|split].
  - revert Hloop. apply (for_each_establishes _ (pair_done i)).
    + intros j s s' _ Hb. by destruct (pair_body_Ok i iset j s s' Hi Hb).
    + intros j j' s s' _ Hb.
      destruct (pair_body_Ok i iset j' s s' Hi Hb) as (_ & Hpres & _). apply Hpres.
  - intros i' j'. revert Hloop. apply (for_each_preserves _ (pair_done i' j')).
    intros j s s' _ Hb.
    destruct (pair_body_Ok i iset j s s' Hi Hb) as (_ & Hpres & _). apply Hpres.
  - revert Hloop. apply (for_each_preserves _ labelled).
    intros j s s' _ Hb. by destruct (pair_body_Ok i iset j s s' Hi Hb) as (_ & _ & ?).
Qed.

Lemma row_body_Raise i t e :
  i ∈ keys ds1 →
  row_body fisher_two_tail n ds1 ds2 i t = Raise e →
  e = ZeroDivisionError "division by zero".
Proof.
  intros Hi. unfold row_body, dict_getitem.
  destruct (keys_dict_get ds1 i Hi) as [iset ->]. simpl.
  apply (for_each_raise _ (λ e, e = ZeroDivisionError "division by zero")).
  intros j s e' Hj Hb. by apply pair_body_Raise in Hb as [-> _].
Qed.

(** A run that ends without an exception has visited every pair. *)
Lemma pairwise_loop_Ok t :
  pairwise_loop fisher_two_tail ds1 ds2 = Ok t →
  labelled t ∧ ∀ i j, i ∈ keys ds1 → j ∈ keys ds2 → pair_done i j t.
Proof.
  unfold pairwise_loop. fold n. fold initial. intros Hloop. split.
  - revert Hloop. intros Hloop.
    apply (for_each_preserves _ labelled _ _ _
             (λ i s s' _ Hb, proj2 (proj2 (row_body_Ok i s s' Hb))) Hloop).
    by unfold labelled, initial.
  - intros i j Hi Hj. revert j Hj.
    pose proof (for_each_establishes (row_body fisher_two_tail n ds1 ds2)
      (λ i t, ∀ j, j ∈ keys ds2 → pair_done i j t) (keys ds1) initial t) as Hall.
    refine (Hall _ _ Hloop i Hi).
    + intros i0 s s' _ Hb. by destruct (row_body_Ok i0 s s' Hb).
    + intros i0 i1 s s' _ Hb Hdone j Hj.
      destruct (row_body_Ok i1 s s' Hb) as (_ & Hpres & _). by apply Hpres, Hdone.
Qed.

(** The only exception of the loop is the division by zero. *)
Lemma pairwise_loop_Raise e :
  pairwise_loop fisher_two_tail ds1 ds2 = Raise e →
  e = ZeroDivisionError "division by zero".
Proof.
  unfold pairwise_loop. fold n.
  apply (for_each_raise _ (λ e, e = ZeroDivisionError "division by zero")).
  intros i s e' Hi. by apply row_body_Raise.
Qed.

(** X10: it is raised when there is a pair at all and some set of the
    first library is empty, whatever the sets of the second library are. *)
Lemma pairwise_loop_Raise_iff :
  pairwise_loop fisher_two_tail ds1 ds2
  = Raise (ZeroDivisionError "division by zero")
  ↔ ds2 ≠ [] ∧ ∃ i, dict_get ds1 i = Some ∅.
Proof.
  split.
  - unfold pairwise_loop. fold n.
    apply (for_each_raise _ (λ _, ds2 ≠ [] ∧ ∃ i, dict_get ds1 i = Some ∅)).
    intros i s e Hi. unfold row_body, dict_getitem.
    destruct (keys_dict_get ds1 i Hi) as [iset Hiset]. rewrite Hiset. simpl.
    apply (for_each_raise _ (λ _, ds2 ≠ [] ∧ ∃ i, dict_get ds1 i = Some ∅)).
    intros j s' e' Hj Hb. apply pair_body_Raise in Hb as [_ Hsize]; [|done].
    split.
    + intros ->. by apply elem_of_nil in Hj.
    + exists i. apply size_empty_inv, leibniz_equiv in Hsize. by rewrite <-Hsize.
  - intros [Hds2 (i & Hi)].
    destruct (pairwise_loop fisher_two_tail ds1 ds2) as [t|e] eqn:Hloop.
    + destruct (keys_nonempty ds2 Hds2) as [j Hj].
      destruct (pairwise_loop_Ok t Hloop) as [_ Hdone].
      destruct (keys_dict_get _ j Hj) as [jset Hjset].
      specialize (Hdone i j (dict_get_Some_keys _ _ _ Hi) Hj ∅ jset Hi Hjset).
      unfold pair_entry in Hdone.
      destruct (contingency n ∅ jset) as [[[a b] c] d] eqn:Hc.
      apply contingency_denominator in Hc. rewrite size_empty in Hc.
      destruct Hdone as [Hnz _]. lia.
    + by rewrite (pairwise_loop_Raise e Hloop).
Qed.

End SetOverlapFacts.


(** ** The Jaccard entry *)

(** What the loop writes: the intersection over twice the size of the
    first set, for [c] is the size of [iset]. *)
Lemma jaccard_entry_actual fisher_two_tail ds1 ds2 t i j iset jset :
  pairwise_loop fisher_two_tail ds1 ds2 = Ok t →
  dict_get ds1 i = Some iset → dict_get ds2 j = Some jset →
  size iset ≠ 0%nat
  ∧ loc (jaccard t) i j
    = Some (Qc_of_Z (Z.of_nat (size (iset ∩ jset)))
            / Qc_of_Z (2 * Z.of_nat (size iset)))%Qc.
Proof.
  intros Hloop Hi Hj.
  destruct (pairwise_loop_Ok _ _ _ _ Hloop) as [_ Hdone].
  specialize (Hdone i j (dict_get_Some_keys _ _ _ Hi) (dict_get_Some_keys _ _ _ Hj)
                iset jset Hi Hj).
  unfold pair_entry in Hdone.
  destruct (contingency _ iset jset) as [[[a b] c] d] eqn:Hc.
  pose proof (contingency_denominator _ _ _ _ _ _ _ Hc) as Hden.
  rewrite contingency_counts in Hc. injection Hc as <- <- <- <-.
  destruct Hdone as (Hnz & Hjac & _). split; [lia|].
  by rewrite Hjac, Hden.
Qed.

(** C1 (evaluated on scenario 1 of the specification): for the pair
    [{A,B,C}], [{B,C,D}] the loop ends and writes the Jaccard entry [1/3],
    where the formula |a ∩ b| / (|a ∩ b| + |a \ b| + |b \ a|) gives [1/2]:
    the count [c] is the size of the first set, not |b \ a|. *)
Theorem jaccard_entry_abc_bcd fisher_two_tail :
  ∃ t, pairwise_loop fisher_two_tail lib_abc lib_bcd = Ok t
       ∧ loc (jaccard t) "x" "y" = Some third
       ∧ Spec.jaccard abc bcd = half
       ∧ third ≠ half.
Proof.
  eexists. split; [vm_compute; reflexivity|]. split; [|split].
  - vm_compute. f_equal. by apply Qc_is_canon.
  - by apply Qc_is_canon.
  - intros H. by apply (f_equal this) in H.
Qed.

(** ** The contingency table *)

(** The table every finished pair was tested on. *)
Lemma fisherp_entry_actual fisher_two_tail ds1 ds2 t i j iset jset :
  pairwise_loop fisher_two_tail ds1 ds2 = Ok t →
  dict_get ds1 i = Some iset → dict_get ds2 j = Some jset →
  loc (fisherp t) i j
  = Some (fisher_two_tail (Z.of_nat (size (iset ∩ jset)))
            (Z.of_nat (size (iset ∖ jset)))
            (Z.of_nat (size iset))
            (genes ds1 ds2 - 2 * Z.of_nat (size iset))%Z).
Proof.
  intros Hloop Hi Hj.
  destruct (pairwise_loop_Ok _ _ _ _ Hloop) as [_ Hdone].
  specialize (Hdone i j (dict_get_Some_keys _ _ _ Hi) (dict_get_Some_keys _ _ _ Hj)
                iset jset Hi Hj).
  unfold pair_entry in Hdone. rewrite contingency_counts in Hdone.
  by destruct Hdone as (_ & _ & Hp & _).
Qed.

(** C2 (evaluated on scenario 1 of the specification): with the four genes
    A, B, C, D as universe, the pair [{A,B,C}], [{B,C,D}] is tested on the
    table [[2, 1], [3, -2]], where the table of the claim is
    [[2, 1], [1, 0]]: the third count is the size of the first set and the
    fourth falls below zero. *)
Theorem fisher_table_abc_bcd fisher_two_tail :
  ∃ t, pairwise_loop fisher_two_tail lib_abc lib_bcd = Ok t
       ∧ genes lib_abc lib_bcd = 4%Z
       ∧ loc (fisherp t) "x" "y" = Some (fisher_two_tail 2 1 3 (-2))%Z
       ∧ contingency 4 abc bcd = (2, 1, 3, -2)%Z
       ∧ Spec.contingency 4 abc bcd = (2, 1, 1, 0)%Z.
Proof.
  eexists. split; [vm_compute; reflexivity|].
  repeat split; vm_compute; reflexivity.
Qed.

(** ** Identical sets and the range of the entry *)

(** Every entry the loop writes lies between 0 and 1/2. *)
Lemma jaccard_entry_range fisher_two_tail ds1 ds2 t i j iset jset :
  pairwise_loop fisher_two_tail ds1 ds2 = Ok t →
  dict_get ds1 i = Some iset → dict_get ds2 j = Some jset →
  ∃ v, loc (jaccard t) i j = Some v ∧ (0 ≤ v)%Qc ∧ (v ≤ half)%Qc.
Proof.
  intros Hloop Hi Hj.
  destruct (jaccard_entry_actual _ _ _ _ _ _ _ _ Hloop Hi Hj) as [Hnz ->].
  eexists. split; [done|].
  assert (size (iset ∩ jset) ≤ size iset)%nat as Hle
    by apply subseteq_size, intersection_subseteq_l.
  set (a := Z.of_nat (size (iset ∩ jset))) in *.
  set (m := Z.of_nat (size iset)) in *.
  assert (0 ≤ a ≤ m)%Z as Ha by lia. assert (0 < m)%Z as Hm by lia.
  clearbody a m. clear -Ha Hm.
  unfold Qcle, half. simpl. rewrite !Qred_correct. unfold Qle, Qdiv, Qmult, Qinv. simpl.
  destruct (2 * m)%Z as [|k|k] eqn:Ek; try lia. simpl. split; nia.
Qed.

(** C3 (evaluated on a set that is in both libraries): for the one-gene set
    [{A}] on both sides the loop ends and writes the Jaccard entry [1/2],
    not [1]. *)
Theorem jaccard_identical_sets fisher_two_tail :
  ∃ t, pairwise_loop fisher_two_tail [("x", {["A"]})] [("y", {["A"]})] = Ok t
       ∧ loc (jaccard t) "x" "y" = Some half
       ∧ half ≠ 1%Qc.
Proof.
  eexists. split; [vm_compute; reflexivity|]. split.
  - vm_compute. reflexivity.
  - intros H. by apply (f_equal this) in H.
Qed.

(** ** Pairs with an empty union *)

(** C4, as stated, fails: on two libraries of one empty set each the loop
    raises [ZeroDivisionError]; it does not end with the entry 0. *)
Lemma empty_union_no_zero :
  pairwise_loop pvalue_stand_in lib_empty_x lib_empty_y
  = Raise (ZeroDivisionError "division by zero")
  ∧ ¬ ∃ t, pairwise_loop pvalue_stand_in lib_empty_x lib_empty_y = Ok t
           ∧ loc (jaccard t) "x" "y" = Some 0%Qc.
Proof.
  assert (pairwise_loop pvalue_stand_in lib_empty_x lib_empty_y
          = Raise (ZeroDivisionError "division by zero")) as H
    by (vm_compute; reflexivity).
  split; [done|]. intros (t & Ht & _). congruence.
Qed.

(** C4 (amended): when some pair of gene sets has an empty union, the
    division [a/(a+b+c)] for it raises [ZeroDivisionError], and the loop ends
    with that exception: no Jaccard table is produced. *)
Theorem empty_union_raises fisher_two_tail ds1 ds2 i j iset jset :
  dict_get ds1 i = Some iset →
  dict_get ds2 j = Some jset →
  iset ∪ jset = ∅ →
  pairwise_loop fisher_two_tail ds1 ds2
  = Raise (ZeroDivisionError "division by zero").
Proof.
  intros Hi Hj Hempty.
  destruct (pairwise_loop fisher_two_tail ds1 ds2) as [t|e] eqn:Hloop.
  - destruct (jaccard_entry_actual _ _ _ _ _ _ _ _ Hloop Hi Hj) as [Hnz _].
    assert (iset = ∅) as -> by set_solver. by rewrite size_empty in Hnz.
  - by rewrite (pairwise_loop_Raise _ _ _ _ Hloop).
Qed.

Lemma empty_union_raises_witness :
  dict_get lib_empty_x "x" = Some ∅
  ∧ dict_get lib_empty_y "y" = Some ∅
  ∧ (∅ ∪ ∅ : geneset) = ∅
  ∧ pairwise_loop pvalue_stand_in lib_empty_x lib_empty_y
    = Raise (ZeroDivisionError "division by zero").
Proof.
  assert (dict_get lib_empty_x "x" = Some ∅) as Hx by reflexivity.
  assert (dict_get lib_empty_y "y" = Some ∅) as Hy by reflexivity.
  assert ((∅ ∪ ∅ : geneset) = ∅) as He by reflexivity.
  split; [exact Hx|]. split; [exact Hy|]. split; [exact He|].
  exact (empty_union_raises pvalue_stand_in lib_empty_x lib_empty_y "x" "y" ∅ ∅ Hx Hy He).
Defined.

(** ** Malformed lines and empty libraries *)

(** C5, as stated, fails: the exception of a malformed line does not name
    the line.  Whatever is read off the exception, it is the same for the
    one-line files [BRCA1] and [TP53]; and it is the same whether the
    malformed line is the first line of the file or the second. *)
Lemma load_gmt_error_names_no_line :
  (¬ ∃ name : exn → string,
       ∀ line e, load_gmt [line] = Raise e → name e = line)
  ∧ load_gmt ["BRCA1"] = Raise (ValueError (not_enough_values 1))
  ∧ load_gmt [Str.tsv ["T1"; "d"; "A"]; "BRCA1"]
    = Raise (ValueError (not_enough_values 1)).
Proof.
  assert (load_gmt ["BRCA1"] = Raise unpack_error) as H1 by (vm_compute; reflexivity).
  assert (load_gmt ["TP53"] = Raise unpack_error) as H2 by (vm_compute; reflexivity).
  split; [|split; [done|by vm_compute]].
  intros (name & Hname). apply Hname in H1. apply Hname in H2. congruence.
Qed.

(** C5 (amended): a file with a line of fewer than two tab-delimited fields
    is not loaded: [load_gmt] raises the [ValueError] of the failed
    unpacking, whose message gives the number of fields found, not the line.
    Two empty libraries give empty Jaccard and p-value tables, and empty
    tables [jtop] and [ftop], without any exception; the cell of the top
    table then raises a [ValueError], and there is no top table. *)
Theorem load_gmt_short_line_empty_libraries fisher_two_tail file :
  Exists (λ line, (length (Str.split Str.tab line) < 2)%nat) file →
  load_gmt file
  = Raise (ValueError "not enough values to unpack (expected at least 2, got 1)")
  ∧ load_gmt [] = Ok []
  ∧ pairwise_loop fisher_two_tail [] [] = Ok empty_tables
  ∧ stack (jaccard empty_tables) = []
  ∧ stack (fisherp empty_tables) = []
  ∧ jtop (jaccard empty_tables) = []
  ∧ ftop (fisherp empty_tables) = []
  ∧ ∃ msg, top empty_tables = Raise (ValueError msg).
Proof.
  intros Hshort. split; [|repeat split; by eexists].
  apply (load_gmt_from_short [] file).
  eapply Exists_impl; [exact Hshort|]. intros line Hline. simpl in *.
  pose proof (StrFacts.length_split_strip Str.tab line). unfold fields. lia.
Qed.

Lemma load_gmt_short_line_empty_libraries_witness :
  Exists (λ line, (length (Str.split Str.tab line) < 2)%nat)
    [Str.tsv ["T1"; "d"; "A"]; "BRCA1"]
  ∧ load_gmt [Str.tsv ["T1"; "d"; "A"]; "BRCA1"]
    = Raise (ValueError "not enough values to unpack (expected at least 2, got 1)")
  ∧ load_gmt [] = Ok []
  ∧ pairwise_loop pvalue_stand_in [] [] = Ok empty_tables
  ∧ stack (jaccard empty_tables) = []
  ∧ stack (fisherp empty_tables) = []
  ∧ jtop (jaccard empty_tables) = []
  ∧ ftop (fisherp empty_tables) = []
  ∧ ∃ msg, top empty_tables = Raise (ValueError msg).
Proof.
  assert (Exists (λ line, (length (Str.split Str.tab line) < 2)%nat)
            [Str.tsv ["T1"; "d"; "A"]; "BRCA1"]) as H.
  { apply Exists_cons_tl, Exists_cons_hd. vm_compute. lia. }
  split; [exact H|].
  exact (load_gmt_short_line_empty_libraries pvalue_stand_in _ H).
Defined.

(** X1: the loader fails on exactly the files with a line that is left
    with fewer than two fields once it is stripped. *)
Lemma load_gmt_raises_iff file e :
  load_gmt file = Raise e
  ↔ e = unpack_error ∧ Exists (λ line, (length (fields line) < 2)%nat) file.
Proof.
  split.
  - apply load_gmt_from_raise.
  - intros [-> H]. by apply load_gmt_from_short.
Qed.

(** ** Repeated terms *)




(** ** The order of the normalisation cells *)

(** C9, as stated, fails: the matrix handed to [uf.ternary_matrix] is not
    the z-scored one.  With every matrix standing for the stages it went
    through, the ternary matrix has [standardized_matrix] between [zscore]
    and [ternary_matrix]. *)
Lemma ternary_input_not_zscored :
  ¬ ∀ (Matrix : Type) (U : uf.t Matrix) (m : Matrix),
      ABA.ternary_matrix (ABA.run U m)
      = Some (uf.ternary_matrix U
                (uf.zscore U (uf.quantile_normalize U
                   (uf.log2 U (uf.remove_impute U m))))).
Proof.
  intros H. specialize (H (list string) ABA.history []). by vm_compute in H.
Qed.

(** C9 (amended): the cells apply missing-data filtering and imputation,
    the log transform, quantile normalisation, row z-scoring,
    standardisation and ternarisation in this order, each to the output of
    the stage before: [matrix] ends as the z-scored matrix,
    [standard_matrix] is computed from it, and the ternarisation threshold
    is applied to [standard_matrix]. *)
Theorem normalisation_order {Matrix : Type} (U : uf.t Matrix) (m : Matrix) :
  let filtered := uf.remove_impute U m in
  let logged := uf.log2 U filtered in
  let normalized := uf.quantile_normalize U logged in
  let zscored := uf.zscore U normalized in
  let standardized := uf.standardized_matrix U zscored in
  ABA.matrix (ABA.run U m) = zscored
  ∧ ABA.standard_matrix (ABA.run U m) = Some standardized
  ∧ ABA.ternary_matrix (ABA.run U m) = Some (uf.ternary_matrix U standardized).
Proof. by repeat split. Qed.

(** ** The symbol re-mapping loop *)

Section RemapFacts.
Context {DataFrame : Type} (shape0 : DataFrame → nat)
        (map_symbols : DataFrame → DataFrame).

(** Whatever [map_symbols] does, the condition is false after the first
    pass through the body: [count] is then [dupes - df.shape[0]] for the
    very [df] the condition reads. *)
Lemma remap_two_tests fuel df0 :
  (2 ≤ fuel)%nat →
  Reactome.remap shape0 map_symbols fuel df0
  = Some (if decide (shape0 (map_symbols df0) = shape0 df0)
          then Reactome.mkState (Z.of_nat (shape0 df0)) 0 (map_symbols df0) 1
          else Reactome.mkState (Z.of_nat (shape0 df0))
                 (Z.of_nat (shape0 df0)
                  - Z.of_nat (shape0 (map_symbols (map_symbols df0))))
                 (map_symbols (map_symbols df0)) 2).
Proof.
  intros Hfuel. destruct fuel as [|[|fuel]]; [lia|lia|].
  unfold Reactome.remap. simpl.
  destruct (decide (shape0 (map_symbols df0) = shape0 df0)) as [Heq|Hne].
  - rewrite decide_False by lia. done.
  - rewrite decide_True by lia. rewrite decide_False by lia. done.
Qed.

End RemapFacts.

(** C6 (evaluated on a chain of renamings): the rows go from 4 to 3 to 2;
    the loop leaves after its first pass, with two invocations made and 2
    rows, although the last invocation changed the row count (3 to 2) and
    one more invocation would change it again (2 to 1). *)
Theorem remap_exits_before_stable :
  let map_symbols := Reactome.map_symbols symbol_lookup in
  length pathway_rows = 4%nat
  ∧ length (map_symbols pathway_rows) = 3%nat
  ∧ ∃ s, Reactome.remap length map_symbols 2 pathway_rows = Some s
         ∧ Reactome.calls s = 2%nat
         ∧ Reactome.df s = map_symbols (map_symbols pathway_rows)
         ∧ length (Reactome.df s) = 2%nat
         ∧ length (map_symbols (Reactome.df s)) = 1%nat.
Proof.
  simpl. split; [done|]. split; [by vm_compute|].
  eexists. split; [vm_compute; reflexivity|]. by vm_compute.
Qed.

(** ** Ranks *)

Lemma Qc_of_nat_S n : Qc_of_nat (S n) = (Qc_of_nat n + 1)%Qc.
Proof.
  unfold Qc_of_nat. by rewrite Nat2Z.inj_succ, <-Z.add_1_r, Z2Qc_inj_add, Z2Qc_inj_1.
Qed.

Lemma Qc_of_nat_0 : Qc_of_nat 0 = 0%Qc.
Proof. apply Z2Qc_inj_0. Qed.

Lemma Qc_of_nat_nonzero n : n ≠ 0%nat → Qc_of_nat n ≠ 0%Qc.
Proof.
  intros Hn H. unfold Qc_of_nat in H. rewrite <-Z2Qc_inj_0 in H.
  apply Z2Qc_inj in H. lia.
Qed.

(** The positions [a, a+1, .., a+n-1] add up to [n*a + n*(n-1)/2]. *)
Lemma Qc_sum_seq a n :
  (2 * Qc_sum (Qc_of_nat <$> seq a n)
   = Qc_of_nat n * (2 * Qc_of_nat a + Qc_of_nat n - 1))%Qc.
Proof.
  revert a. induction n as [|n IH]; intros a; simpl.
  - rewrite Qc_of_nat_0. ring.
  - rewrite Qcmult_plus_distr_r, IH, !Qc_of_nat_S. ring.
Qed.

(** The average rank in closed form: the number of smaller values plus the
    middle of the block of equal ones. *)
Lemma rank_average_closed ps p :
  p ∈ ps →
  let less := length (filter (λ x, x < p)%Qc ps) in
  let same := length (filter (λ x, x = p) ps) in
  rank_average ps p = (Qc_of_nat less + (Qc_of_nat same + 1) / 2)%Qc.
Proof.
  intros Hin less same. unfold rank_average. fold less same.
  assert (same ≠ 0%nat) as Hsame.
  { unfold same. intros H0. apply length_zero_iff_nil in H0.
    assert (p ∈ filter (λ x, x = p) ps) as Hp by (by apply list_elem_of_filter).
    rewrite H0 in Hp. by apply elem_of_nil in Hp. }
  apply Qc_of_nat_nonzero in Hsame.
  pose proof (Qc_sum_seq (S less) same) as Hsum. rewrite Qc_of_nat_S in Hsum.
  set (total := Qc_sum (Qc_of_nat <$> seq (S less) same)) in *.
  assert (total = Qc_of_nat same
                  * (2 * (Qc_of_nat less + 1) + Qc_of_nat same - 1) / 2)%Qc as ->
    by (rewrite <-Hsum; field; done).
  field. done.
Qed.

(** With no ties the rank is the position in the sorted column. *)
Lemma rank_average_distinct ps p :
  length (filter (λ x, x = p) ps) = 1%nat →
  rank_average ps p = Qc_of_nat (S (length (filter (λ x, x < p)%Qc ps))).
Proof.
  intros Hone. unfold rank_average. rewrite Hone. simpl.
  rewrite Qcplus_0_r.
  assert (Qc_of_nat 1 = 1%Qc) as -> by apply Z2Qc_inj_1.
  apply (right_id 1%Qc Qcdiv).
Qed.

(** ** Stacked frames *)

Lemma stack_labels df : (stack df).*1 = list_prod (index df) (columns df).
Proof.
  unfold stack. rewrite <-list_fmap_compose.
  induction (list_prod (index df) (columns df)) as [|k l IH]; simpl; [done|].
  f_equal. exact IH.
Qed.

Lemma length_stack df :
  length (stack df) = (length (index df) * length (columns df))%nat.
Proof. unfold stack. by rewrite length_fmap, length_prod. Qed.

Lemma elem_of_stack df k v :
  (k, v) ∈ stack df → k ∈ list_prod (index df) (columns df) ∧ v = cells df !!! k.
Proof.
  unfold stack. intros (k' & [= -> ->] & Hk)%list_elem_of_fmap. done.
Qed.

(** ** The q-values *)

Lemma zip_with_fmap_snd {A B C D} (f : A * B → C → D) (g : B → C) l :
  zip_with f l (g <$> l.*2) = (λ x, f x (g x.2)) <$> l.
Proof. induction l as [|x l IH]; simpl; [done|]. f_equal. exact IH. Qed.

Lemma with_q_fmap stacked :
  with_q stacked
  = (λ kp, {| ftop_label := kp.1; ftop_p := kp.2;
              ftop_q := qvalue stacked.*2 kp.2 |}) <$> stacked.
Proof.
  unfold with_q, rank, qvalue. rewrite zip_with_fmap_snd, length_fmap.
  apply list_fmap_ext. by intros _ [k p] _.
Qed.

Global Instance by_q_total : Total by_q.
Proof. intros r1 r2. unfold by_q. apply (total Qcle). Qed.

Global Instance by_q_trans : Transitive by_q.
Proof. intros r1 r2 r3. unfold by_q. apply Qcle_trans. Qed.

Lemma ftop_Permutation fisherp : ftop fisherp ≡ₚ with_q (stack fisherp).
Proof. apply merge_sort_Permutation. Qed.

Lemma ftop_sorted fisherp : StronglySorted by_q (ftop fisherp).
Proof. apply Sorted_StronglySorted; [apply _|]. apply Sorted_merge_sort, _. Qed.

Lemma elem_of_ftop fisherp r :
  r ∈ ftop fisherp ↔
  ftop_label r ∈ list_prod (index fisherp) (columns fisherp)
  ∧ ftop_p r = cells fisherp !!! ftop_label r
  ∧ ftop_q r = qvalue (stack fisherp).*2 (ftop_p r).
Proof.
  rewrite ftop_Permutation, with_q_fmap, list_elem_of_fmap. split.
  - intros ([k p] & -> & Hin). simpl. by apply elem_of_stack in Hin as [? ->].
  - intros (Hk & Hp & Hq). exists (ftop_label r, ftop_p r). split.
    + destruct r as [k p q]. simpl in *. by subst.
    + unfold stack. apply list_elem_of_fmap. exists (ftop_label r). by rewrite Hp.
Qed.

Lemma ftop_labels fisherp :
  ftop_label <$> ftop fisherp ≡ₚ list_prod (index fisherp) (columns fisherp).
Proof.
  rewrite ftop_Permutation, with_q_fmap, <-list_fmap_compose, <-stack_labels.
  done.
Qed.

(** After a run without exception every cell of both frames is filled. *)
Lemma pairwise_loop_cells fisher_two_tail ds1 ds2 t i j :
  pairwise_loop fisher_two_tail ds1 ds2 = Ok t →
  (i, j) ∈ list_prod (keys ds1) (keys ds2) →
  ∃ iset jset,
    dict_get ds1 i = Some iset ∧ dict_get ds2 j = Some jset
    ∧ loc (jaccard t) i j = Some (cells (jaccard t) !!! (i, j))
    ∧ loc (fisherp t) i j = Some (cells (fisherp t) !!! (i, j))
    ∧ intersect t !! (i, j) = Some (iset ∩ jset).
Proof.
  intros Hloop [Hi Hj]%list_elem_of_In%in_prod_iff.
  apply list_elem_of_In in Hi, Hj.
  destruct (keys_dict_get ds1 i Hi) as [iset Hiset].
  destruct (keys_dict_get ds2 j Hj) as [jset Hjset].
  destruct (pairwise_loop_Ok _ _ _ _ Hloop) as [_ Hdone].
  specialize (Hdone i j Hi Hj iset jset Hiset Hjset). unfold pair_entry in Hdone.
  destruct (contingency _ iset jset) as [[[a b] c] d].
  destruct Hdone as (_ & Hjac & Hp & Hint).
  exists iset, jset. unfold loc in *.
  split; [done|]. split; [done|].
  split; [by rewrite (lookup_total_alt (M:=gmap label)), Hjac|].
  split; [by rewrite (lookup_total_alt (M:=gmap label)), Hp|done].
Qed.

(** C7: once the loop has computed all p-values, [ftop] has one row per
    pair (a, b); the row of a pair carries the pair's p-value [p] and
    [q = p * N / rank(p)], where [N] is the number of pairs and [rank(p)] the
    (average) rank of [p] among the p-values of all pairs, that is the number
    of smaller p-values plus the middle of the block of equal ones; and the
    rows are in ascending order of q. *)
Theorem qvalues_ranked_sorted fisher_two_tail ds1 ds2 t :
  pairwise_loop fisher_two_tail ds1 ds2 = Ok t →
  let ps := (stack (fisherp t)).*2 in
  let N := (length (keys ds1) * length (keys ds2))%nat in
  length ps = N
  ∧ ftop_label <$> ftop (fisherp t) ≡ₚ list_prod (keys ds1) (keys ds2)
  ∧ StronglySorted (λ r1 r2, ftop_q r1 ≤ ftop_q r2)%Qc (ftop (fisherp t))
  ∧ ∀ r, r ∈ ftop (fisherp t) →
      loc (fisherp t) (ftop_label r).1 (ftop_label r).2 = Some (ftop_p r)
      ∧ ftop_p r ∈ ps
      ∧ ftop_q r = (ftop_p r * Qc_of_nat N / rank_average ps (ftop_p r))%Qc
      ∧ rank_average ps (ftop_p r)
        = (Qc_of_nat (length (filter (λ x, x < ftop_p r)%Qc ps))
           + (Qc_of_nat (length (filter (λ x, x = ftop_p r) ps)) + 1) / 2)%Qc.
Proof.
  intros Hloop ps N.
  destruct (pairwise_loop_Ok _ _ _ _ Hloop) as [(_ & _ & Hidx & Hcol) _].
  assert (length ps = N) as Hlen.
  { unfold ps, N. by rewrite length_fmap, length_stack, Hidx, Hcol. }
  split; [done|]. split; [by rewrite ftop_labels, Hidx, Hcol|].
  split; [apply ftop_sorted|].
  intros r (Hk & Hp & Hq)%elem_of_ftop. rewrite Hidx, Hcol in Hk.
  destruct (ftop_label r) as [i j] eqn:Hlabel. simpl.
  destruct (pairwise_loop_cells _ _ _ _ _ _ Hloop Hk) as (_ & _ & _ & _ & _ & Hcell & _).
  assert (ftop_p r ∈ ps) as Hin.
  { unfold ps, stack. rewrite <-list_fmap_compose. apply list_elem_of_fmap.
    exists (i, j). simpl. by rewrite Hidx, Hcol. }
  unfold loc in *. split; [by rewrite Hcell, Hp|]. split; [done|]. split.
  - rewrite Hq. unfold qvalue. fold ps. by rewrite Hlen.
  - by apply rank_average_closed.
Qed.

Lemma qvalues_ranked_sorted_witness :
  pairwise_loop pvalue_stand_in lib_xz lib_yw = Ok tables_xz_yw
  ∧ let ps := (stack (fisherp tables_xz_yw)).*2 in
    let N := (length (keys lib_xz) * length (keys lib_yw))%nat in
    length ps = N
    ∧ ftop_label <$> ftop (fisherp tables_xz_yw)
      ≡ₚ list_prod (keys lib_xz) (keys lib_yw)
    ∧ StronglySorted (λ r1 r2, ftop_q r1 ≤ ftop_q r2)%Qc
        (ftop (fisherp tables_xz_yw))
    ∧ ∀ r, r ∈ ftop (fisherp tables_xz_yw) →
        loc (fisherp tables_xz_yw) (ftop_label r).1 (ftop_label r).2
        = Some (ftop_p r)
        ∧ ftop_p r ∈ ps
        ∧ ftop_q r = (ftop_p r * Qc_of_nat N / rank_average ps (ftop_p r))%Qc
        ∧ rank_average ps (ftop_p r)
          = (Qc_of_nat (length (filter (λ x, x < ftop_p r)%Qc ps))
             + (Qc_of_nat (length (filter (λ x, x = ftop_p r) ps)) + 1) / 2)%Qc.
Proof.
  assert (pairwise_loop pvalue_stand_in lib_xz lib_yw = Ok tables_xz_yw) as H
    by (vm_compute; reflexivity).
  split; [exact H|].
  exact (qvalues_ranked_sorted pvalue_stand_in lib_xz lib_yw tables_xz_yw H).
Defined.

(** ** The top-association table *)

Global Instance by_Jaccard_q_total : Total by_Jaccard_q.
Proof.
  intros [[[k1 J1] p1] q1] [[[k2 J2] p2] q2]. unfold by_Jaccard_q.
  destruct (Qclt_le_dec J2 J1) as [Hlt|Hle]; [by left; left|].
  destruct (Qclt_le_dec J1 J2) as [Hlt'|Hle']; [by right; left|].
  assert (J1 = J2) as -> by (by apply Qcle_antisym).
  destruct (total Qcle q1 q2); [left|right]; by right.
Qed.

Global Instance by_Jaccard_q_trans : Transitive by_Jaccard_q.
Proof.
  intros [[[k1 J1] p1] q1] [[[k2 J2] p2] q2] [[[k3 J3] p3] q3].
  unfold by_Jaccard_q. intros [H12|[-> H12]] [H23|[-> H23]].
  - left. by apply Qclt_trans with J2.
  - by left.
  - by left.
  - right. split; [done|]. by apply Qcle_trans with q2.
Qed.

Lemma jtop_Permutation jaccard : jtop jaccard ≡ₚ stack jaccard.
Proof. apply merge_sort_Permutation. Qed.

Lemma elem_of_concat jt ft k J p q :
  (k, J, p, q) ∈ concat jt ft →
  (k, J) ∈ jt ∧ ∃ r, r ∈ ft ∧ ftop_label r = k ∧ ftop_p r = p ∧ ftop_q r = q.
Proof.
  unfold concat. rewrite list_elem_of_omap. intros ([k' J'] & Hin & Hrow).
  destruct (find _ ft) as [r|] eqn:Hfind; simpl in Hrow; [|done].
  injection Hrow as -> -> <- <-.
  apply find_some in Hfind as [Hr Hlabel].
  apply bool_decide_eq_true in Hlabel. apply list_elem_of_In in Hr.
  split; [done|]. by exists r.
Qed.

Lemma concat_labels jt ft :
  (∀ kJ, kJ ∈ jt → ∃ r, r ∈ ft ∧ ftop_label r = kJ.1) →
  (λ row, row.1.1.1) <$> concat jt ft = jt.*1.
Proof.
  unfold concat. induction jt as [|[k J] jt IH]; intros Hall; simpl; [done|].
  destruct (find _ ft) as [r|] eqn:Hfind; simpl.
  - f_equal. apply IH. intros kJ Hin. apply Hall. by apply list_elem_of_further.
  - destruct (Hall (k, J)) as (r & Hr & Hlabel); [apply list_elem_of_here|].
    apply list_elem_of_In in Hr.
    pose proof (find_none _ _ Hfind r Hr) as Hno. simpl in *.
    by apply bool_decide_eq_false in Hno.
Qed.

Section MapM.
Context {A B : Type} (f : A → result B) (g : A → B).

Lemma mapM_Ok l : (∀ x, x ∈ l → f x = Ok (g x)) → mapM f l = Ok (g <$> l).
Proof.
  induction l as [|x l IH]; intros Hall; simpl; [done|].
  rewrite (Hall x) by apply list_elem_of_here. simpl.
  rewrite IH; [done|]. intros y Hy. apply Hall. by apply list_elem_of_further.
Qed.

End MapM.

Lemma ranked_Permutation t :
  ranked t ≡ₚ concat (jtop (jaccard t)) (ftop (fisherp t)).
Proof. apply merge_sort_Permutation. Qed.


Section TopFacts.
Variable fisher_two_tail : Z → Z → Z → Z → Qc.
Variables (ds1 ds2 : library) (t : tables).
Hypothesis Hloop : pairwise_loop fisher_two_tail ds1 ds2 = Ok t.

Lemma ranked_row k J p q :
  (k, J, p, q) ∈ ranked t →
  k ∈ list_prod (keys ds1) (keys ds2)
  ∧ loc (jaccard t) k.1 k.2 = Some J
  ∧ loc (fisherp t) k.1 k.2 = Some p
  ∧ q = qvalue (stack (fisherp t)).*2 p.
Proof.
  destruct (pairwise_loop_Ok _ _ _ _ Hloop) as [(Hidx & Hcol & Hidx' & Hcol') _].
  rewrite ranked_Permutation. intros [HJ (r & Hr & <- & <- & <-)]%elem_of_concat.
  rewrite jtop_Permutation in HJ. apply elem_of_stack in HJ as [Hk ->].
  apply elem_of_ftop in Hr as (_ & Hp & Hq). rewrite Hidx, Hcol in Hk.
  destruct (ftop_label r) as [i j] eqn:Hlabel.
  destruct (pairwise_loop_cells _ _ _ _ _ _ Hloop Hk) as (_ & _ & _ & _ & HJ & Hcell & _).
  simpl. rewrite Hp at 1. done.
Qed.

Lemma ranked_labels :
  (λ row, row.1.1.1) <$> ranked t ≡ₚ list_prod (keys ds1) (keys ds2).
Proof.
  destruct (pairwise_loop_Ok _ _ _ _ Hloop) as [(Hidx & Hcol & Hidx' & Hcol') _].
  rewrite ranked_Permutation, concat_labels.
  - by rewrite jtop_Permutation, stack_labels, Hidx, Hcol.
  - intros [k J] Hin. rewrite jtop_Permutation in Hin.
    apply elem_of_stack in Hin as [Hk _]. simpl.
    assert (k ∈ ftop_label <$> ftop (fisherp t)) as Hk'
      by (by rewrite ftop_labels, Hidx', Hcol', <-Hidx, <-Hcol).
    apply list_elem_of_fmap in Hk' as (r & -> & Hr). by exists r.
Qed.


(** With a row to annotate the cell of the top table ends without
    exception. *)
Lemma top_rows :
  ranked t ≠ [] → top t = Ok (annotate t <$> take 1000 (ranked t)).
Proof.
  intros Hrows. unfold top. fold (ranked t).
  transitivity (mapM (λ '(k, J, p, q),
                    s ← intersect_getitem (intersect t) k;
                    Ok {| top_label := k; top_Jaccard := J; top_p := p;
                          top_q := q; top_intersect := s |})
                  (take 1000 (ranked t))).
  { destruct (ranked t) as [|row rows']; [done|]. done. }
  apply mapM_Ok.
  intros [[[k J] p] q] Hin. apply subseteq_take in Hin.
  apply ranked_row in Hin as (Hk & _).
  destruct k as [i j].
  destruct (pairwise_loop_cells _ _ _ _ _ _ Hloop Hk) as (iset & jset & _ & _ & _ & _ & Hint).
  unfold intersect_getitem, annotate. by rewrite Hint.
Qed.

End TopFacts.

(** Without a row the cell of the top table raises. *)
Lemma top_no_rows t : ranked t = [] → top t = Raise apply_empty_frame.
Proof. unfold top. fold (ranked t). by intros ->. Qed.

Lemma top_Ok_rows t rows : top t = Ok rows → ranked t ≠ [].
Proof. intros Htop Hnil. by rewrite (top_no_rows t Hnil) in Htop. Qed.



(** The top table of the two libraries of two sets, by its labels: the
    pair of the two equal sets comes first. *)
Example top_xz_yw_labels :
  ∃ rows, top tables_xz_yw = Ok rows
          ∧ top_label <$> rows = [("z", "y"); ("x", "y"); ("z", "w"); ("x", "w")].
Proof. eexists. split; vm_compute; reflexivity. Qed.

(** * Further properties of the cells *)

(** ** The terms of a library *)

Lemma keys_dict_set {V} (d : dict V) k v :
  keys (dict_set d k v)
  = if decide (k ∈ keys d) then keys d else (keys d ++ [k])%list.
Proof.
  unfold keys. induction d as [|[k0 v0] d IH].
  - simpl. destruct (decide (k ∈ [])) as [Hin|_]; [by apply elem_of_nil in Hin|done].
  - simpl dict_set. destruct (decide (k0 = k)) as [->|Hne].
    + rewrite decide_True by apply list_elem_of_here. done.
    + rewrite fmap_cons, IH. cbn [fst]. rewrite (fmap_cons fst).
      destruct (decide (k ∈ d.*1)) as [Hin|Hnin].
      * rewrite decide_True by (by apply list_elem_of_further). done.
      * rewrite decide_False; [done|].
        intros [->|?]%elem_of_cons; [by apply Hne|by apply Hnin].
Qed.

Lemma drop_duplicates_filter {A} `{EqDecision A} (P : A → Prop)
    `{∀ x, Decision (P x)} (l : list A) :
  Reactome.drop_duplicates (filter P l) = filter P (Reactome.drop_duplicates l).
Proof.
  induction l as [|x l IH]; simpl; [done|].
  destruct (decide (P x)) as [HP|HP].
  - rewrite !filter_cons_True by done. simpl. rewrite IH.
    f_equal. rewrite !list_filter_filter. apply list_filter_iff.
    intros y. split; intros [? ?]; by split.
  - rewrite !filter_cons_False by done. rewrite IH.
    rewrite list_filter_filter. apply list_filter_iff.
    intros y. split; [|by intros [? ?]]. intros Hy. split; [done|]. by intros ->.
Qed.

Lemma load_gmt_from_keys gmt0 file gmt :
  load_gmt_from gmt0 file = Ok gmt →
  keys gmt
  = (keys gmt0
     ++ Reactome.drop_duplicates
          (filter (λ t, t ∉ keys gmt0) (term_of <$> file)))%list.
Proof.
  revert gmt0. induction file as [|line rest IH]; intros gmt0; simpl.
  - intros [= <-]. by rewrite app_nil_r.
  - fold (fields line). pose proof (unpack_line_fields line) as Hu.
    unfold term_of at 1.
    destruct (fields line) as [|f1 [|f2 fs]] eqn:E; rewrite Hu; simpl; try done.
    intros Hload. rewrite (IH _ Hload), keys_dict_set.
    destruct (decide (f1 ∈ keys gmt0)) as [Hin|Hnin].
    + rewrite filter_cons_False by tauto. done.
    + rewrite filter_cons_True by done. simpl. rewrite <-(assoc_L (++)). simpl.
      do 2 f_equal. rewrite <-drop_duplicates_filter, list_filter_filter.
      f_equal. apply list_filter_iff. intros t.
      rewrite elem_of_app, list_elem_of_singleton. split.
      * intros Ht. split; [|tauto]. intros ->. tauto.
      * intros [Hne Ht] [? | ->]; tauto.
Qed.

Lemma elem_of_drop_duplicates {A} `{EqDecision A} (l : list A) x :
  x ∈ Reactome.drop_duplicates l ↔ x ∈ l.
Proof.
  induction l as [|y l IH]; simpl; [done|].
  rewrite !elem_of_cons, list_elem_of_filter, IH.
  destruct (decide (x = y)); tauto.
Qed.

Lemma NoDup_drop_duplicates {A} `{EqDecision A} (l : list A) :
  NoDup (Reactome.drop_duplicates l).
Proof.
  induction l as [|y l IH]; simpl; [apply NoDup_nil_2|].
  apply NoDup_cons. split.
  - rewrite list_elem_of_filter. tauto.
  - by apply NoDup_filter.
Qed.

(** X2: a library that loads holds its terms in the order in which they
    first appear in the file, each of them once; a term is a key exactly
    when some line is filed under it. *)
Theorem load_gmt_keys file gmt :
  load_gmt file = Ok gmt →
  keys gmt = Reactome.drop_duplicates (term_of <$> file)
  ∧ ∀ term, term ∈ keys gmt ↔ ∃ line, line ∈ file ∧ term_of line = term.
Proof.
  intros Hload. apply load_gmt_from_keys in Hload. simpl in Hload.
  assert (keys gmt = Reactome.drop_duplicates (term_of <$> file)) as Hkeys.
  { rewrite Hload. f_equal. clear Hload.
    induction (term_of <$> file) as [|t l IH]; [done|].
    rewrite filter_cons_True; [|by intros ?%elem_of_nil]. f_equal. exact IH. }
  split; [done|]. intros term.
  rewrite Hkeys, elem_of_drop_duplicates, list_elem_of_fmap. split.
  - intros (line & -> & Hin). by exists line.
  - intros (line & Hin & <-). by exists line.
Qed.

Lemma load_gmt_keys_witness :
  load_gmt gmt_lines = Ok gmt_library
  ∧ keys gmt_library = Reactome.drop_duplicates (term_of <$> gmt_lines)
  ∧ ∀ term, term ∈ keys gmt_library
            ↔ ∃ line, line ∈ gmt_lines ∧ term_of line = term.
Proof.
  assert (load_gmt gmt_lines = Ok gmt_library) as H by (vm_compute; reflexivity).
  split; [exact H|]. exact (load_gmt_keys gmt_lines gmt_library H).
Defined.

(** ** Whitespace around a line *)

Module StripFacts.
Import Str.

Lemma lstrip_clean s : clean_start (lstrip s).
Proof.
  induction s as [|c s IH]; simpl; [done|].
  destruct (isspace c) eqn:E; [done|]. simpl. done.
Qed.

Lemma lstrip_of_clean s : clean_start s → lstrip s = s.
Proof. destruct s as [|c s]; simpl; [done|]. by intros ->. Qed.

Lemma rstrip_clean s : clean_start s → clean_start (rstrip s).
Proof.
  destruct s as [|c s]; simpl; [done|]. intros Hc.
  destruct (rstrip s); simpl; [by rewrite Hc|done].
Qed.

Lemma rstrip_idemp s : rstrip (rstrip s) = rstrip s.
Proof.
  induction s as [|c s IH]; simpl; [done|].
  destruct (rstrip s) as [|c' r] eqn:E.
  - destruct (isspace c) eqn:Ec; simpl; [done|]. by rewrite Ec.
  - simpl in *. by rewrite IH.
Qed.

Lemma strip_idemp s : strip (strip s) = strip s.
Proof.
  unfold strip. rewrite (lstrip_of_clean (rstrip (lstrip s))).
  - apply rstrip_idemp.
  - apply rstrip_clean, lstrip_clean.
Qed.

End StripFacts.

(** X3: whitespace around the lines does not count: the file whose lines
    were stripped beforehand loads to the same result, library or
    exception. *)
Theorem load_gmt_strip file : load_gmt (Str.strip <$> file) = load_gmt file.
Proof.
  unfold load_gmt. generalize (@nil (string * geneset)) as gmt.
  induction file as [|line rest IH]; intros gmt; simpl; [done|].
  rewrite StripFacts.strip_idemp.
  destruct (unpack_line _) as [[[term description] geneset]|e]; simpl; [|done].
  apply IH.
Qed.

(** ** Lines of a text *)

Lemma splitlines_LF l rest :
  one_line l = true →
  splitlines (l +:+ String LF rest) = l :: splitlines rest.
Proof.
  induction l as [|c l IH]; simpl.
  - intros _. destruct rest as [|c' rest']; [done|]. done.
  - intros [Hc Hl]%andb_true_iff. apply negb_true_iff in Hc. rewrite Hc.
    by rewrite (IH Hl).
Qed.

Lemma splitlines_CRLF l rest :
  one_line l = true →
  splitlines (l +:+ String CR (String LF rest)) = l :: splitlines rest.
Proof.
  induction l as [|c l IH]; simpl.
  - done.
  - intros [Hc Hl]%andb_true_iff. apply negb_true_iff in Hc. rewrite Hc.
    by rewrite (IH Hl).
Qed.

Lemma splitlines_one_line s : Forall (λ l, one_line l = true) (splitlines s).
Proof.
  assert (∀ n s, (String.length s ≤ n)%nat →
            Forall (λ l, one_line l = true) (splitlines s)) as H;
    [|by apply (H (String.length s))].
  clear s. induction n as [|n IH]; intros [|c s] Hlen; simpl in *;
    try apply Forall_nil_2; [lia|].
  destruct (is_linebreak c) eqn:Ec.
  - destruct s as [|c' s']; [by repeat constructor|].
    destruct (Ascii.eqb c CR && Ascii.eqb c' LF); constructor; try done;
      apply IH; simpl in *; lia.
  - pose proof (IH s ltac:(lia)) as Hs.
    destruct (splitlines s) as [|l ls]; simpl.
    + repeat constructor. simpl. by rewrite Ec.
    + apply Forall_cons in Hs as [Hl Hls]. constructor; [|done].
      simpl. by rewrite Ec, Hl.
Qed.

(** X4: a file written line by line, every line ended by a line feed or
    by a carriage return and a line feed, is read back as these lines (none
    of which holds a line boundary), and the last line end adds no empty
    line: reading the text gives what [load_gmt] gives on the lines. *)
Theorem read_gmt_unlines lines :
  Forall (λ l, one_line l = true) lines →
  splitlines (unlines (String LF EmptyString) lines) = lines
  ∧ splitlines (unlines (String CR (String LF EmptyString)) lines) = lines
  ∧ read_gmt (unlines (String LF EmptyString) lines) = load_gmt lines
  ∧ read_gmt (unlines (String CR (String LF EmptyString)) lines) = load_gmt lines.
Proof.
  intros Hlines.
  assert (splitlines (unlines (String LF EmptyString) lines) = lines) as H1.
  { induction Hlines as [|l ls Hl _ IH]; simpl; [done|].
    change (String LF EmptyString +:+ ?x) with (String LF x).
    by rewrite (splitlines_LF l _ Hl), IH. }
  assert (splitlines (unlines (String CR (String LF EmptyString)) lines) = lines)
    as H2.
  { clear H1. induction Hlines as [|l ls Hl _ IH]; simpl; [done|].
    change (String CR (String LF EmptyString) +:+ ?x)
      with (String CR (String LF x)).
    by rewrite (splitlines_CRLF l _ Hl), IH. }
  unfold read_gmt. by rewrite H1, H2.
Qed.

Lemma read_gmt_unlines_witness :
  Forall (λ l, one_line l = true) gmt_lines
  ∧ splitlines (unlines (String LF EmptyString) gmt_lines) = gmt_lines
  ∧ splitlines (unlines (String CR (String LF EmptyString)) gmt_lines) = gmt_lines
  ∧ read_gmt (unlines (String LF EmptyString) gmt_lines) = load_gmt gmt_lines
  ∧ read_gmt (unlines (String CR (String LF EmptyString)) gmt_lines)
    = load_gmt gmt_lines.
Proof.
  assert (Forall (λ l, one_line l = true) gmt_lines) as H
    by (repeat constructor).
  split; [exact H|]. exact (read_gmt_unlines gmt_lines H).
Defined.

(** X5: an empty line inside the file makes the reading fail: a text
    with two line feeds in a row after its first line raises the
    [ValueError] of the unpacking, whatever the other lines are. *)
Theorem read_gmt_blank_line before after :
  one_line before = true →
  read_gmt (before +:+ String LF (String LF after)) = Raise unpack_error.
Proof.
  intros Hline. unfold read_gmt. rewrite (splitlines_LF _ _ Hline).
  apply load_gmt_from_short.
  apply Exists_cons_tl.
  assert (∃ rest, splitlines (String LF after) = EmptyString :: rest) as [rest ->].
  { simpl. destruct after as [|c after']; eauto. }
  apply Exists_cons_hd. vm_compute. lia.
Qed.

Lemma read_gmt_blank_line_witness :
  one_line (Str.tsv ["T"; "d"; "A"]) = true
  ∧ read_gmt (Str.tsv ["T"; "d"; "A"]
              +:+ String LF (String LF (Str.tsv ["U"; "d"; "C"])))
    = Raise unpack_error.
Proof.
  assert (one_line (Str.tsv ["T"; "d"; "A"]) = true) as H by reflexivity.
  split; [exact H|]. exact (read_gmt_blank_line _ _ H).
Defined.

(** ** File names *)

Module NameFacts.
Import Str.

Lemma split_nonempty sep s : split sep s ≠ [].
Proof.
  pose proof (StrFacts.length_split sep s) as H. by destruct (split sep s).
Qed.

Lemma split_no_sep sep s : count sep s = 0%nat → split sep s = [s].
Proof.
  induction s as [|c s IH]; simpl; [done|].
  destruct (Ascii.eqb c sep); [done|]. intros H. by rewrite (IH H).
Qed.

Lemma split_singleton sep s f : split sep s = [f] → f = s ∧ count sep s = 0%nat.
Proof.
  revert f. induction s as [|c s IH]; intros f; simpl.
  - by intros [= <-].
  - destruct (Ascii.eqb c sep) eqn:Ec.
    + intros [= <- H]. by apply split_nonempty in H.
    + destruct (split sep s) as [|g gs] eqn:Es; [by apply split_nonempty in Es|].
      intros [= <- ->]. destruct (IH g eq_refl) as [-> ->]. done.
Qed.

(** The last field is the last field of what follows a separator. *)
Lemma last_split_app sep p q :
  last (split sep (p +:+ String sep q)) = last (split sep q).
Proof.
  induction p as [|c p IH]; simpl.
  - rewrite Ascii.eqb_refl.
    pose proof (split_nonempty sep q). by destruct (split sep q).
  - destruct (Ascii.eqb c sep).
    + pose proof (split_nonempty sep (p +:+ String sep q)).
      destruct (split sep (p +:+ String sep q)) eqn:E; [done|]. by rewrite <-IH.
    + pose proof (split_nonempty sep (p +:+ String sep q)).
      destruct (split sep (p +:+ String sep q)) as [|f fs] eqn:E; [done|].
      rewrite <-IH. destruct fs as [|f' fs'].
      * exfalso. apply split_singleton in E as [_ E].
        clear -E. induction p as [|c' p IHp]; simpl in E.
        -- by rewrite Ascii.eqb_refl in E.
        -- destruct (Ascii.eqb c' sep); [done|]. by apply IHp.
      * done.
Qed.

Lemma last_split_inv sep s f :
  last (split sep s) = Some f →
  count sep f = 0%nat ∧ (s = f ∨ ∃ p, s = p +:+ String sep f).
Proof.
  revert f. induction s as [|c s IH]; intros f; simpl.
  - intros [= <-]. by split; [|left].
  - destruct (Ascii.eqb c sep) eqn:Ec.
    + apply Ascii.eqb_eq in Ec as ->.
      pose proof (split_nonempty sep s).
      destruct (split sep s) as [|g gs] eqn:Es; [done|].
      rewrite last_cons_cons. intros Hl. destruct (IH f Hl) as [Hc [->|[p ->]]].
      * split; [done|]. right. by exists EmptyString.
      * split; [done|]. right. by exists (String sep p).
    + pose proof (split_nonempty sep s).
      destruct (split sep s) as [|g gs] eqn:Es; [done|].
      destruct gs as [|g' gs'].
      * intros [= <-]. apply split_singleton in Es as [-> Hc].
        split; [|by left]. simpl. by rewrite Ec.
      * rewrite last_cons_cons. intros Hl.
        destruct (IH f Hl) as [Hc [->|[p ->]]].
        -- rewrite (split_no_sep _ _ Hc) in Es. done.
        -- split; [done|]. right. by exists (String c p).
Qed.

End NameFacts.

(** X6: the file is opened with [gzip] exactly when its name is [gz] or
    ends in [.gz]. *)
Theorem is_gz_iff gmt :
  is_gz gmt = true ↔ gmt = "gz" ∨ ∃ p, gmt = p +:+ ".gz".
Proof.
  unfold is_gz. rewrite bool_decide_eq_true. split.
  - intros [_ [->|[p ->]]]%NameFacts.last_split_inv; [by left|].
    right. by exists p.
  - intros [->|[p ->]]; [done|].
    change (p +:+ ".gz") with (p +:+ String dot "gz").
    by rewrite NameFacts.last_split_app.
Qed.

Lemma head_split sep s :
  ∃ f, head (Str.split sep s) = Some f
       ∧ Str.count sep f = 0%nat
       ∧ (s = f ∨ ∃ rest, s = f +:+ String sep rest).
Proof.
  induction s as [|c s (f & Hf & Hc & Hs)]; simpl.
  - exists EmptyString. split; [done|]. split; [done|]. by left.
  - destruct (Ascii.eqb c sep) eqn:Ec.
    + apply Ascii.eqb_eq in Ec as ->. exists EmptyString.
      split; [done|]. split; [done|]. right. by exists s.
    + destruct (Str.split sep s) as [|g gs]; [done|]. injection Hf as ->.
      exists (String c f). split; [done|]. split.
      * simpl. by rewrite Ec.
      * destruct Hs as [->|[rest ->]]; [by left|]. right. by exists rest.
Qed.

Lemma stem_app s ext :
  Str.count dot s = 0%nat → stem (s +:+ String dot ext) = s.
Proof.
  unfold stem. induction s as [|c s IH]; simpl; [done|].
  destruct (Ascii.eqb c dot) eqn:Ec; [done|]. intros Hc. specialize (IH Hc).
  pose proof (NameFacts.split_nonempty dot (s +:+ String dot ext)).
  destruct (Str.split dot (s +:+ String dot ext)); [done|]. simpl in *. by subst.
Qed.

(** X7: the stem of a file name holds no dot, and it is the name itself
    or the part of the name before its first dot. *)
Theorem stem_prefix gmt :
  Str.count dot (stem gmt) = 0%nat
  ∧ (gmt = stem gmt ∨ ∃ rest, gmt = stem gmt +:+ String dot rest).
Proof.
  unfold stem. destruct (head_split dot gmt) as (f & -> & Hc & Hs). done.
Qed.

(** X8: the names of the output files start with what precedes the first
    dot of each library name, whatever follows that dot. *)
Theorem output_stems stem1 ext1 stem2 ext2 :
  Str.count dot stem1 = 0%nat → Str.count dot stem2 = 0%nat →
  output (stem1 +:+ String dot ext1) (stem2 +:+ String dot ext2)
  = stem1 +:+ "_" +:+ stem2 +:+ "_".
Proof. intros H1 H2. unfold output. by rewrite !stem_app. Qed.

Lemma output_stems_witness :
  Str.count dot "ccle" = 0%nat ∧ Str.count dot "lincs" = 0%nat
  ∧ output ("ccle" +:+ String dot "gmt.gz") ("lincs" +:+ String dot "gmt")
    = "ccle" +:+ "_" +:+ "lincs" +:+ "_".
Proof.
  assert (Str.count dot "ccle" = 0%nat) as H1 by reflexivity.
  assert (Str.count dot "lincs" = 0%nat) as H2 by reflexivity.
  split; [exact H1|]. split; [exact H2|].
  exact (output_stems "ccle" "gmt.gz" "lincs" "gmt" H1 H2).
Defined.

(** ** The universe of genes *)

Lemma foldl_union_spec (acc : geneset) (sets : list geneset) x :
  x ∈ foldl (λ genes geneset, genes ∪ geneset) acc sets
  ↔ x ∈ acc ∨ ∃ s, s ∈ sets ∧ x ∈ s.
Proof.
  revert acc. induction sets as [|s sets IH]; intros acc; simpl.
  - split; [by left|]. intros [?|(s & Hs & _)]; [done|]. by apply elem_of_nil in Hs.
  - rewrite IH, elem_of_union. split.
    + intros [[?|?]|(s' & Hs' & Hx)].
      * by left.
      * right. exists s. split; [apply list_elem_of_here|done].
      * right. exists s'. split; [by apply list_elem_of_further|done].
    + intros [?|(s' & [->|Hs']%elem_of_cons & Hx)].
      * by left; left.
      * by left; right.
      * right. by exists s'.
Qed.

Lemma elem_of_universe ds1 ds2 x :
  x ∈ universe ds1 ds2 ↔ ∃ s, (s ∈ values ds1 ∨ s ∈ values ds2) ∧ x ∈ s.
Proof.
  unfold universe. rewrite !foldl_union_spec. split.
  - intros [[Hx|(s & Hs & Hx)]|(s & Hs & Hx)].
    + by apply not_elem_of_empty in Hx.
    + exists s. by split; [left|].
    + exists s. by split; [right|].
  - intros (s & [Hs|Hs] & Hx).
    + left. right. by exists s.
    + right. by exists s.
Qed.

(** X9: the universe count does not depend on the order of the two
    libraries, and it is at least the size of every gene set of either. *)
Theorem genes_symmetric_bound ds1 ds2 :
  genes ds1 ds2 = genes ds2 ds1
  ∧ ∀ s, s ∈ values ds1 ∨ s ∈ values ds2 →
      (Z.of_nat (size s) ≤ genes ds1 ds2)%Z.
Proof.
  change (genes ds1 ds2) with (Z.of_nat (size (universe ds1 ds2))).
  change (genes ds2 ds1) with (Z.of_nat (size (universe ds2 ds1))).
  split.
  - do 2 f_equal. apply set_eq. intros x. rewrite !elem_of_universe.
    split; intros (s & Hs & Hx); exists s; tauto.
  - intros s Hs. apply inj_le, subseteq_size. intros x Hx.
    apply elem_of_universe. by exists s.
Qed.

(** ** What the loop leaves behind *)

Section Domain.
Variable fisher_two_tail : Z → Z → Z → Z → Qc.
Variables ds1 ds2 : library.

Lemma pair_body_paired i iset j t t' :
  i ∈ keys ds1 → j ∈ keys ds2 →
  pair_body fisher_two_tail (genes ds1 ds2) ds2 i iset j t = Ok t' →
  (paired ds1 ds2) t → (paired ds1 ds2) t'.
Proof.
  intros Hi Hj. unfold pair_body, dict_getitem.
  destruct (dict_get ds2 j) as [jset|]; [|done]. cbn.
  unfold truediv. destruct (decide _); [done|]. cbn. intros [= <-] Hp k. simpl.
  destruct (decide (k = (i, j))) as [->|Hne].
  - done.
  - rewrite lookup_insert_ne by done. apply Hp.
Qed.

Lemma pairwise_loop_paired t :
  pairwise_loop fisher_two_tail ds1 ds2 = Ok t → (paired ds1 ds2) t.
Proof.
  unfold pairwise_loop. intros Hloop.
  apply (for_each_preserves _ (paired ds1 ds2) _ _ _) with (2 := Hloop).
  - intros i s s' Hi. unfold row_body, dict_getitem.
    destruct (dict_get ds1 i) as [iset|]; [|done]. cbn.
    apply (for_each_preserves _ (paired ds1 ds2)).
    intros j u u' Hj. by apply pair_body_paired.
  - intros k [s Hs]. simpl in Hs. by rewrite lookup_empty in Hs.
Qed.

End Domain.

(** X11: after the loop the dict [intersect] has an entry exactly for
    the pairs of a term of the first and a term of the second library, and
    the entry of a pair is the intersection of its two gene sets. *)
Theorem intersect_entries fisher_two_tail ds1 ds2 t i j :
  pairwise_loop fisher_two_tail ds1 ds2 = Ok t →
  (is_Some (intersect t !! (i, j)) ↔ i ∈ keys ds1 ∧ j ∈ keys ds2)
  ∧ ∀ iset jset, dict_get ds1 i = Some iset → dict_get ds2 j = Some jset →
      intersect t !! (i, j) = Some (iset ∩ jset).
Proof.
  intros Hloop. split; [split|].
  - apply (pairwise_loop_paired _ _ _ _ Hloop (i, j)).
  - intros [Hi Hj].
    assert ((i, j) ∈ list_prod (keys ds1) (keys ds2)) as Hk.
    { apply list_elem_of_In, in_prod_iff. by rewrite <-!list_elem_of_In. }
    destruct (pairwise_loop_cells _ _ _ _ _ _ Hloop Hk) as (? & ? & _ & _ & _ & _ & ->).
    done.
  - intros iset jset Hi Hj.
    assert ((i, j) ∈ list_prod (keys ds1) (keys ds2)) as Hk.
    { apply list_elem_of_In, in_prod_iff. rewrite <-!list_elem_of_In.
      eauto using dict_get_Some_keys. }
    destruct (pairwise_loop_cells _ _ _ _ _ _ Hloop Hk)
      as (iset' & jset' & Hi' & Hj' & _ & _ & ->). congruence.
Qed.

Lemma intersect_entries_witness :
  pairwise_loop pvalue_stand_in lib_xz lib_yw = Ok tables_xz_yw
  ∧ (is_Some (intersect tables_xz_yw !! ("x", "w"))
     ↔ "x" ∈ keys lib_xz ∧ "w" ∈ keys lib_yw)
  ∧ ∀ iset jset, dict_get lib_xz "x" = Some iset → dict_get lib_yw "w" = Some jset →
      intersect tables_xz_yw !! ("x", "w") = Some (iset ∩ jset).
Proof.
  assert (pairwise_loop pvalue_stand_in lib_xz lib_yw = Ok tables_xz_yw) as H
    by (vm_compute; reflexivity).
  split; [exact H|].
  exact (intersect_entries pvalue_stand_in lib_xz lib_yw tables_xz_yw "x" "w" H).
Defined.

(** X12: the Jaccard entry of a pair is 0 exactly when its two gene sets
    share no gene. *)
Theorem jaccard_zero_iff_disjoint fisher_two_tail ds1 ds2 t i j iset jset :
  pairwise_loop fisher_two_tail ds1 ds2 = Ok t →
  dict_get ds1 i = Some iset → dict_get ds2 j = Some jset →
  loc (jaccard t) i j = Some 0%Qc ↔ iset ∩ jset = ∅.
Proof.
  intros Hloop Hi Hj.
  destruct (jaccard_entry_actual _ _ _ _ _ _ _ _ Hloop Hi Hj) as [Hnz ->].
  assert (Qc_of_Z (2 * Z.of_nat (size iset)) ≠ 0%Qc) as Hden.
  { rewrite <-Z2Qc_inj_0. intros H%Z2Qc_inj. lia. }
  split.
  - intros H0.
    assert ((Qc_of_Z (Z.of_nat (size (iset ∩ jset)))
             / Qc_of_Z (2 * Z.of_nat (size iset)))%Qc = 0%Qc) as H
      by congruence.
    clear H0. apply leibniz_equiv, size_empty_inv.
    apply Qcmult_integral in H as [H|H].
    + rewrite <-Z2Qc_inj_0 in H. apply Z2Qc_inj in H. lia.
    + pose proof (Qcmult_inv_r _ Hden) as Hinv.
      rewrite H, Qcmult_0_r in Hinv. done.
  - intros ->. rewrite size_empty. f_equal.
    change (Qc_of_Z (Z.of_nat 0)) with (Qc_of_Z 0). rewrite Z2Qc_inj_0.
    apply Qcmult_0_l.
Qed.

Lemma jaccard_zero_iff_disjoint_witness :
  pairwise_loop pvalue_stand_in lib_xz lib_yw = Ok tables_xz_yw
  ∧ dict_get lib_xz "x" = Some abc
  ∧ dict_get lib_yw "w" = Some {["D"]}
  ∧ (loc (jaccard tables_xz_yw) "x" "w" = Some 0%Qc ↔ abc ∩ {["D"]} = ∅).
Proof.
  assert (pairwise_loop pvalue_stand_in lib_xz lib_yw = Ok tables_xz_yw) as H
    by (vm_compute; reflexivity).
  assert (dict_get lib_xz "x" = Some abc) as Hx by reflexivity.
  assert (dict_get lib_yw "w" = Some {["D"]}) as Hw by reflexivity.
  split; [exact H|]. split; [exact Hx|]. split; [exact Hw|].
  exact (jaccard_zero_iff_disjoint pvalue_stand_in lib_xz lib_yw tables_xz_yw
           "x" "w" abc {["D"]} H Hx Hw).
Defined.

(** ** Ranks and q-values *)

Lemma length_filter_disjoint {A} (P Q R : A → Prop)
    `{∀ x, Decision (P x)} `{∀ x, Decision (Q x)} `{∀ x, Decision (R x)} l :
  (∀ x, P x → Q x → False) → (∀ x, P x → R x) → (∀ x, Q x → R x) →
  (length (filter P l) + length (filter Q l) ≤ length (filter R l))%nat.
Proof.
  intros Hdis HP HQ. induction l as [|x l IH]; simpl; [done|].
  rewrite !filter_cons.
  destruct (decide (P x)) as [Hp|Hp], (decide (Q x)) as [Hq|Hq];
    destruct (decide (R x)) as [Hr|Hr]; simpl; try lia.
  - destruct (Hdis x Hp Hq).
  - destruct (Hdis x Hp Hq).
  - destruct (Hr (HP x Hp)).
  - destruct (Hr (HQ x Hq)).
Qed.

Section RankFacts.
Variables (ps : list Qc) (p : Qc).
Hypothesis Hin : p ∈ ps.

Local Abbreviation less := (length (filter (λ x, x < p)%Qc ps)).
Local Abbreviation same := (length (filter (λ x, x = p) ps)).

Lemma same_positive : (1 ≤ same)%nat.
Proof.
  assert (p ∈ filter (λ x, x = p) ps) as Hp by (by apply list_elem_of_filter).
  destruct (filter (λ x, x = p) ps); [by apply elem_of_nil in Hp|simpl; lia].
Qed.

Lemma less_same_length : (less + same ≤ length ps)%nat.
Proof.
  etrans; [|apply (length_filter (λ x, x < p ∨ x = p)%Qc)].
  apply length_filter_disjoint.
  - intros x Hlt ->. by apply Qclt_not_eq in Hlt.
  - by left.
  - by right.
Qed.

Lemma rank_average_twice :
  (2 * rank_average ps p)%Qc
  = Qc_of_Z (2 * Z.of_nat less + Z.of_nat same + 1).
Proof.
  rewrite (rank_average_closed ps p Hin). cbv zeta.
  rewrite !Z2Qc_inj_add, Z2Qc_inj_mul, Z2Qc_inj_2, Z2Qc_inj_1.
  unfold Qc_of_nat. field. done.
Qed.

End RankFacts.

Lemma Qc_twice_le (x : Qc) (z : Z) :
  (2 * x)%Qc = Qc_of_Z z → ∀ y : Z, (z ≤ 2 * y)%Z → (x ≤ Qc_of_Z y)%Qc.
Proof.
  intros Hx y Hy. apply (Qcmult_le_mono_pos_l _ _ 2); [done|].
  rewrite Hx, <-Z2Qc_inj_2, <-Z2Qc_inj_mul. by rewrite <-Z2Qc_inj_le.
Qed.

Lemma Qc_twice_ge (x : Qc) (z : Z) :
  (2 * x)%Qc = Qc_of_Z z → ∀ y : Z, (2 * y ≤ z)%Z → (Qc_of_Z y ≤ x)%Qc.
Proof.
  intros Hx y Hy. apply (Qcmult_le_mono_pos_l _ _ 2); [done|].
  rewrite Hx, <-Z2Qc_inj_2, <-Z2Qc_inj_mul. by rewrite <-Z2Qc_inj_le.
Qed.

Lemma rank_average_range ps p :
  p ∈ ps →
  (1 ≤ rank_average ps p)%Qc ∧ (rank_average ps p ≤ Qc_of_nat (length ps))%Qc.
Proof.
  intros Hin. pose proof (rank_average_twice ps p Hin) as H2.
  pose proof (same_positive ps p Hin). pose proof (less_same_length ps p).
  split.
  - rewrite <-Z2Qc_inj_1. apply (Qc_twice_ge _ _ H2). lia.
  - apply (Qc_twice_le _ _ H2). lia.
Qed.

(** X13: the rank of a value of the column lies between 1 and the
    length of the column. *)
Theorem rank_average_bounds ps p :
  p ∈ ps →
  (1 ≤ rank_average ps p)%Qc ∧ (rank_average ps p ≤ Qc_of_nat (length ps))%Qc.
Proof. apply rank_average_range. Qed.

Lemma rank_average_bounds_witness :
  half ∈ [third; half; half]
  ∧ (1 ≤ rank_average [third; half; half] half)%Qc
  ∧ (rank_average [third; half; half] half ≤ Qc_of_nat (length [third; half; half]))%Qc.
Proof.
  assert (half ∈ [third; half; half]) as H
    by (apply list_elem_of_further, list_elem_of_here).
  split; [exact H|]. exact (rank_average_bounds [third; half; half] half H).
Defined.

(** X14: the rank grows strictly with the value: of two values of the
    column the smaller has the smaller rank. *)
Theorem rank_average_increasing ps p p' :
  p ∈ ps → p' ∈ ps → (p < p')%Qc →
  (rank_average ps p < rank_average ps p')%Qc.
Proof.
  intros Hin Hin' Hlt.
  pose proof (rank_average_twice ps p Hin) as H2.
  pose proof (rank_average_twice ps p' Hin') as H2'.
  pose proof (same_positive ps p Hin). pose proof (same_positive ps p' Hin').
  assert (length (filter (λ x, x < p)%Qc ps) + length (filter (λ x, x = p) ps)
          ≤ length (filter (λ x, x < p')%Qc ps))%nat as Hle.
  { apply length_filter_disjoint.
    - intros x Hx ->. by apply Qclt_not_eq in Hx.
    - intros x Hx. by apply Qclt_trans with p.
    - by intros x ->. }
  apply (Qcmult_lt_mono_pos_l _ _ 2); [done|].
  rewrite H2, H2', <-Z2Qc_inj_lt. lia.
Qed.

Lemma rank_average_increasing_witness :
  third ∈ [third; half; half] ∧ half ∈ [third; half; half] ∧ (third < half)%Qc
  ∧ (rank_average [third; half; half] third
     < rank_average [third; half; half] half)%Qc.
Proof.
  assert (third ∈ [third; half; half]) as H1 by apply list_elem_of_here.
  assert (half ∈ [third; half; half]) as H2
    by (apply list_elem_of_further, list_elem_of_here).
  assert (third < half)%Qc as H3 by (vm_compute; reflexivity).
  split; [exact H1|]. split; [exact H2|]. split; [exact H3|].
  exact (rank_average_increasing [third; half; half] third half H1 H2 H3).
Defined.

Lemma ftop_p_in fisherp r :
  r ∈ ftop fisherp → ftop_p r ∈ (stack fisherp).*2.
Proof.
  intros (Hk & Hp & _)%elem_of_ftop. unfold stack.
  rewrite <-list_fmap_compose. apply list_elem_of_fmap.
  exists (ftop_label r). by rewrite Hp.
Qed.

(** X15: the q-value of a row of [ftop] whose p-value is not negative is
    not negative and at most the p-value times the number of pairs.  (Both
    bounds outlast the rounding of the product and of the quotient, the
    rank being 1 or more; that the q-value is no less than the p-value
    does not, and is not stated.) *)
Theorem ftop_q_bounds fisherp r :
  r ∈ ftop fisherp → (0 ≤ ftop_p r)%Qc →
  (0 ≤ ftop_q r)%Qc
  ∧ (ftop_q r ≤ ftop_p r * Qc_of_nat (length (stack fisherp)))%Qc.
Proof.
  intros Hr Hp0. pose proof (ftop_p_in _ _ Hr) as Hin.
  apply elem_of_ftop in Hr as (_ & _ & ->). unfold qvalue.
  rewrite length_fmap.
  set (p := ftop_p r) in *. set (N := Qc_of_nat (length (stack fisherp))).
  destruct (rank_average_range _ _ Hin) as [H1 HN].
  rewrite length_fmap in HN. fold N in HN.
  set (rk := rank_average (stack fisherp).*2 p) in *.
  assert (0 < rk)%Qc as Hpos by (by apply Qclt_le_trans with 1%Qc).
  assert (rk ≠ 0%Qc) as Hnz by (by apply not_symmetry, Qclt_not_eq).
  assert ((p * N / rk * rk)%Qc = (p * N)%Qc) as Hmul by (field; done).
  assert (0 ≤ p * N)%Qc as HpN.
  { apply Qcmult_nonneg_nonneg; [done|].
    by apply Qcle_trans with rk, HN; apply Qclt_le_weak. }
  split.
  - apply (Qcmult_le_mono_pos_r _ _ rk Hpos). rewrite Hmul.
    by rewrite Qcmult_0_l.
  - apply (Qcmult_le_mono_pos_r _ _ rk Hpos). rewrite Hmul.
    rewrite <-(Qcmult_1_r (p * N)) at 1. by apply Qcmult_le_mono_nonneg_l.
Qed.

Lemma ftop_q_bounds_witness :
  let r := mkFtop ("x", "y") third third in
  r ∈ ftop (fisherp tables_abc_bcd) ∧ (0 ≤ ftop_p r)%Qc
  ∧ (0 ≤ ftop_q r)%Qc
  ∧ (ftop_q r ≤ ftop_p r * Qc_of_nat (length (stack (fisherp tables_abc_bcd))))%Qc.
Proof.
  intros r.
  assert (r ∈ ftop (fisherp tables_abc_bcd)) as H1.
  { assert (ftop (fisherp tables_abc_bcd) = [r]) as ->; [|apply list_elem_of_here].
    vm_compute. reflexivity. }
  assert (0 ≤ ftop_p r)%Qc as H2 by (vm_compute; discriminate).
  split; [exact H1|]. split; [exact H2|].
  exact (ftop_q_bounds (fisherp tables_abc_bcd) r H1 H2).
Defined.

(** ** The ranking by Jaccard index *)

Global Instance by_value_desc_total : Total by_value_desc.
Proof. intros r1 r2. unfold by_value_desc. apply (total Qcle). Qed.

Global Instance by_value_desc_trans : Transitive by_value_desc.
Proof.
  intros r1 r2 r3. unfold by_value_desc. intros ??.
  by apply Qcle_trans with r2.2.
Qed.

(** X16: [jtop] lists every pair once, with its Jaccard entry, in
    descending order of the entries; its first row holds the largest
    entry. *)
Theorem jtop_descending fisher_two_tail ds1 ds2 t :
  pairwise_loop fisher_two_tail ds1 ds2 = Ok t →
  (jtop (jaccard t)).*1 ≡ₚ list_prod (keys ds1) (keys ds2)
  ∧ StronglySorted (λ r1 r2, r2.2 ≤ r1.2)%Qc (jtop (jaccard t))
  ∧ (∀ i j v, ((i, j), v) ∈ jtop (jaccard t) → loc (jaccard t) i j = Some v)
  ∧ ∀ best r, head (jtop (jaccard t)) = Some best → r ∈ jtop (jaccard t) →
      (r.2 ≤ best.2)%Qc.
Proof.
  intros Hloop.
  destruct (pairwise_loop_Ok _ _ _ _ Hloop) as [(Hidx & Hcol & _) _].
  assert (StronglySorted by_value_desc (jtop (jaccard t))) as Hsorted.
  { apply Sorted_StronglySorted; [apply _|]. apply Sorted_merge_sort, _. }
  split; [|split; [|split]].
  - by rewrite jtop_Permutation, stack_labels, Hidx, Hcol.
  - exact Hsorted.
  - intros i j v Hin. rewrite jtop_Permutation in Hin.
    apply elem_of_stack in Hin as [Hk ->]. rewrite Hidx, Hcol in Hk.
    by destruct (pairwise_loop_cells _ _ _ _ _ _ Hloop Hk) as (_ & _ & _ & _ & ? & _).
  - intros best r Hhead Hr.
    destruct (jtop (jaccard t)) as [|b rest]; [done|]. injection Hhead as ->.
    apply StronglySorted_inv in Hsorted as [_ Hall].
    apply elem_of_cons in Hr as [->|Hr]; [apply Qcle_refl|].
    rewrite Forall_forall in Hall. by apply Hall.
Qed.

Lemma jtop_descending_witness :
  pairwise_loop pvalue_stand_in lib_xz lib_yw = Ok tables_xz_yw
  ∧ (jtop (jaccard tables_xz_yw)).*1 ≡ₚ list_prod (keys lib_xz) (keys lib_yw)
  ∧ StronglySorted (λ r1 r2, r2.2 ≤ r1.2)%Qc (jtop (jaccard tables_xz_yw))
  ∧ (∀ i j v, ((i, j), v) ∈ jtop (jaccard tables_xz_yw) →
       loc (jaccard tables_xz_yw) i j = Some v)
  ∧ ∀ best r, head (jtop (jaccard tables_xz_yw)) = Some best →
      r ∈ jtop (jaccard tables_xz_yw) → (r.2 ≤ best.2)%Qc.
Proof.
  assert (pairwise_loop pvalue_stand_in lib_xz lib_yw = Ok tables_xz_yw) as H
    by (vm_compute; reflexivity).
  split; [exact H|].
  exact (jtop_descending pvalue_stand_in lib_xz lib_yw tables_xz_yw H).
Defined.

(** X17: [top] has one row per pair, and no more than 1000 rows. *)
Theorem top_length fisher_two_tail ds1 ds2 t rows :
  pairwise_loop fisher_two_tail ds1 ds2 = Ok t →
  top t = Ok rows →
  length rows = (1000 `min` (length ds1 * length ds2))%nat.
Proof.
  intros Hloop Htop.
  rewrite (top_rows _ _ _ _ Hloop (top_Ok_rows _ _ Htop)) in Htop.
  injection Htop as <-. rewrite length_fmap, length_take.
  pose proof (ranked_labels _ _ _ _ Hloop) as Hperm.
  apply Permutation_length in Hperm.
  rewrite length_fmap, length_prod in Hperm. unfold keys in Hperm.
  rewrite !length_fmap in Hperm. by rewrite Hperm.
Qed.

Lemma top_length_witness :
  pairwise_loop pvalue_stand_in lib_xz lib_yw = Ok tables_xz_yw
  ∧ ∃ rows, top tables_xz_yw = Ok rows
      ∧ length rows = (1000 `min` (length lib_xz * length lib_yw))%nat.
Proof.
  assert (pairwise_loop pvalue_stand_in lib_xz lib_yw = Ok tables_xz_yw) as H
    by (vm_compute; reflexivity).
  split; [exact H|].
  assert (∃ rows, top tables_xz_yw = Ok rows) as [rows Hrows]
    by (eexists; vm_compute; reflexivity).
  exists rows. split; [exact Hrows|].
  exact (top_length pvalue_stand_in lib_xz lib_yw tables_xz_yw rows H Hrows).
Defined.

(** ** Reactome: rows of the gmt file *)


Section DropDuplicatesBy.
Context {A K : Type} `{EqDecision K} (key : A → K).

Lemma elem_of_drop_duplicates_by l x :
  x ∈ Pre.drop_duplicates_by key l → x ∈ l.
Proof.
  revert x. induction l as [|y l IH]; intros x; simpl; [done|].
  rewrite !elem_of_cons, list_elem_of_filter. intros [->|[_ Hx]]; [by left|].
  right. by apply IH.
Qed.

Lemma drop_duplicates_by_keys l :
  key <$> Pre.drop_duplicates_by key l = Reactome.drop_duplicates (key <$> l).
Proof.
  induction l as [|y l IH]; [done|].
  change (key y :: (key <$> filter (λ x, key x ≠ key y)
                               (Pre.drop_duplicates_by key l))
          = key y :: filter (λ k, k ≠ key y)
                       (Reactome.drop_duplicates (key <$> l))).
  f_equal. rewrite <-IH.
  generalize (Pre.drop_duplicates_by key l) as l'. clear IH.
  induction l' as [|z l' IH]; [done|]. rewrite fmap_cons, !filter_cons.
  destruct (decide (key z ≠ key y)); [rewrite fmap_cons|]; by rewrite IH.
Qed.

Lemma drop_duplicates_by_sublist l : Pre.drop_duplicates_by key l `sublist_of` l.
Proof.
  induction l as [|y l IH]; simpl; [done|].
  apply sublist_skip. etrans; [apply sublist_filter|done].
Qed.

End DropDuplicatesBy.

(** X18: after the pre-processing no two rows have the same gene string;
    the rows that stay are rows of the parsed file, in their order; every
    parsed row has a row with its gene string among them; the number of
    duplicates reported is not negative. *)
Theorem preprocess_distinct to_ascii column0 :
  let parsed := Pre.parse to_ascii <$> column0 in
  NoDup (Pre.Genes <$> Pre.preprocess to_ascii column0)
  ∧ Pre.preprocess to_ascii column0 `sublist_of` parsed
  ∧ (∀ r, r ∈ parsed →
       ∃ kept, kept ∈ Pre.preprocess to_ascii column0
               ∧ Pre.Genes kept = Pre.Genes r)
  ∧ (0 ≤ Pre.found to_ascii column0)%Z.
Proof.
  intros parsed. unfold Pre.found, Pre.preprocess. fold parsed.
  split; [|split; [|split]].
  - rewrite drop_duplicates_by_keys. apply NoDup_drop_duplicates.
  - apply drop_duplicates_by_sublist.
  - intros r Hr.
    assert (Pre.Genes r ∈ Pre.Genes <$> Pre.drop_duplicates_by Pre.Genes parsed)
      as Hk.
    { rewrite drop_duplicates_by_keys, elem_of_drop_duplicates.
      apply list_elem_of_fmap. by exists r. }
    apply list_elem_of_fmap in Hk as (kept & Hkey & Hkept). by exists kept.
  - pose proof (sublist_length _ _ (drop_duplicates_by_sublist Pre.Genes parsed))
      as Hlen.
    unfold parsed in Hlen at 2. rewrite length_fmap in Hlen. lia.
Qed.

(** X19: the exploded frame has a row for a gene and a pathway exactly
    when the gene is on a row of that pathway, a row with a missing gene
    exactly for the rows without genes, and as many rows as the gene lists
    have elements, an empty list counting once. *)
Theorem explode_rows df :
  (∀ gene pathway,
     (Some gene, pathway) ∈ Pre.explode df
     ↔ ∃ genes, (pathway, genes) ∈ df ∧ gene ∈ genes)
  ∧ (∀ pathway, (None, pathway) ∈ Pre.explode df ↔ (pathway, []) ∈ df)
  ∧ length (Pre.explode df) = sum_list ((λ r, 1 `max` length r.2) <$> df).
Proof.
  unfold Pre.explode. split; [|split].
  - intros gene pathway. rewrite list_elem_of_bind. split.
    + intros ([pw genes] & Hin & Hr). cbn [fst snd] in Hin.
      destruct genes as [|g genes].
      * apply list_elem_of_singleton in Hin. congruence.
      * apply list_elem_of_fmap in Hin as (g' & Heq & Hg').
        injection Heq as -> ->. by exists (g :: genes).
    + intros (genes & Hr & Hgene). exists (pathway, genes). split; [|done].
      cbn [fst snd]. destruct genes as [|g genes]; [by apply elem_of_nil in Hgene|].
      apply list_elem_of_fmap. by exists gene.
  - intros pathway. rewrite list_elem_of_bind. split.
    + intros ([pw genes] & Hin & Hr). cbn [fst snd] in Hin.
      destruct genes as [|g genes].
      * apply list_elem_of_singleton in Hin. by injection Hin as ->.
      * apply list_elem_of_fmap in Hin as (g' & Heq & Hg'). congruence.
    + intros Hr. exists (pathway, []). split; [|done]. cbn [fst snd]. by left.
  - induction df as [|[pw genes] df IH]; [done|].
    rewrite bind_cons, length_app, fmap_cons, IH. cbn [fst snd sum_list]. f_equal.
    destruct genes as [|g genes]; [done|]. rewrite length_fmap. simpl. lia.
Qed.

(** ** Reactome: pathway labels *)


Module LabelFacts.
Import Label.

Lemma cons_word_app w ws ws' :
  cons_word w (ws ++ ws')%list = (cons_word w ws ++ ws')%list.
Proof. by destruct w. Qed.

Lemma split_ws_app a t ws :
  split_ws t = (EmptyString, ws) →
  split_ws (a +:+ t) = ((split_ws a).1, ((split_ws a).2 ++ ws)%list).
Proof.
  intros Ht. induction a as [|c a IH]; [done|].
  change (String c a +:+ t) with (String c (a +:+ t)).
  cbn [split_ws]. rewrite IH. destruct (split_ws a) as [w' ws'].
  cbn [fst snd]. destruct (Str.isspace c); [|done].
  cbn [fst snd]. by rewrite cons_word_app.
Qed.

Lemma words_app_space a c b :
  Str.isspace c = true → words (a +:+ String c b) = (words a ++ words b)%list.
Proof.
  intros Hc. unfold words at 1.
  rewrite (split_ws_app a (String c b) (words b)).
  - unfold words at 2. destruct (split_ws a) as [w ws]. cbn [fst snd].
    apply cons_word_app.
  - cbn [split_ws]. unfold words. destruct (split_ws b). by rewrite Hc.
Qed.

Lemma split_ws_no_space w : no_space w = true → split_ws w = (w, []).
Proof.
  induction w as [|c w IH]; [done|]. cbn [no_space split_ws].
  intros [Hc Hw]%andb_prop. rewrite (IH Hw).
  by destruct (Str.isspace c).
Qed.

Lemma words_word w : word w = true → words w = [w].
Proof.
  unfold word, words. intros [Hns Hne]%andb_prop.
  rewrite (split_ws_no_space w Hns). destruct w; [done|done].
Qed.

Lemma words_join ws :
  Forall (λ w, word w = true) ws → words (Str.join Pre.space ws) = ws.
Proof.
  induction 1 as [|w ws Hw Hws IH]; [done|].
  destruct ws as [|w' ws]; [by apply words_word|].
  change (Str.join Pre.space (w :: w' :: ws))
    with (w +:+ String Pre.space (Str.join Pre.space (w' :: ws))).
  rewrite words_app_space by done. by rewrite IH, words_word.
Qed.

Lemma fold_char_ascii c :
  (N_of_ascii c <? 128)%N = true → fold_char c = String c EmptyString.
Proof. by destruct c as [[] [] [] [] [] [] [] []]. Qed.

Lemma to_ascii_ascii s : is_ascii s = true → to_ascii s = s.
Proof.
  induction s as [|c s IH]; [done|]. cbn [is_ascii to_ascii].
  intros [Hc Hs]%andb_prop. by rewrite (fold_char_ascii c Hc), (IH Hs).
Qed.

Lemma append_assoc (a b c : string) : a +:+ (b +:+ c) = (a +:+ b) +:+ c.
Proof.
  induction a as [|x a IH]; [done|].
  change (String x (a +:+ (b +:+ c)) = String x ((a +:+ b) +:+ c)).
  by f_equal.
Qed.

Lemma to_ascii_app a b : to_ascii (a +:+ b) = to_ascii a +:+ to_ascii b.
Proof.
  induction a as [|c a IH]; [done|].
  change (String c a +:+ b) with (String c (a +:+ b)).
  cbn [to_ascii]. rewrite IH. apply append_assoc.
Qed.

Lemma to_ascii_label name id :
  to_ascii (label name id) = label (to_ascii name) (to_ascii id).
Proof. unfold label. by rewrite to_ascii_app. Qed.

End LabelFacts.

(** X20: the label that the pre-processing builds from a pathway name and
    an identifier and then folds to ASCII is decoded into the folded
    identifier, when that is one word, and into the folded name with every
    run of whitespace turned into one blank.  An ASCII identifier is got
    back as it was, and so is a name that consists of ASCII words set
    apart by single blanks; a name with other characters is not. *)
Theorem pathway_label_decoded name id :
  Label.word (Label.to_ascii id) = true →
  let index := Label.to_ascii (Label.label name id) in
  (∀ s genes, Pre.split_row s = (Some (Label.label name id), genes) →
      Pre.parse Label.to_ascii s = (Some index, genes))
  ∧ Label.Pathway_ID index = Some (Label.to_ascii id)
  ∧ Label.Pathway index
    = Str.join Pre.space (Label.words (Label.to_ascii name))
  ∧ (Label.is_ascii id = true → Label.Pathway_ID index = Some id)
  ∧ ∀ ws, Forall (λ w, Label.word w = true) ws →
          name = Str.join Pre.space ws → Label.is_ascii name = true →
          Label.Pathway index = name.
Proof.
  intros Hid index.
  assert (Label.Pathway_ID index = Some (Label.to_ascii id)
          ∧ Label.Pathway index
            = Str.join Pre.space (Label.words (Label.to_ascii name)))
    as [HID Hname].
  { unfold index, Label.Pathway_ID, Label.Pathway.
    rewrite LabelFacts.to_ascii_label. unfold Label.label.
    rewrite LabelFacts.words_app_space by done.
    rewrite (LabelFacts.words_word _ Hid).
    by rewrite last_snoc, removelast_last. }
  split; [|split; [done|split; [done|split]]].
  - intros s genes Hs. unfold Pre.parse. by rewrite Hs.
  - intros Hascii. by rewrite HID, LabelFacts.to_ascii_ascii.
  - intros ws Hws -> Hascii.
    by rewrite Hname, LabelFacts.to_ascii_ascii, LabelFacts.words_join.
Qed.

Lemma pathway_label_decoded_witness :
  Label.word (Label.to_ascii "R-HSA-109581") = true
  ∧ let index := Label.to_ascii (Label.label "Apoptosis" "R-HSA-109581") in
    (∀ s genes,
        Pre.split_row s = (Some (Label.label "Apoptosis" "R-HSA-109581"), genes) →
        Pre.parse Label.to_ascii s = (Some index, genes))
    ∧ Label.Pathway_ID index = Some (Label.to_ascii "R-HSA-109581")
    ∧ Label.Pathway index
      = Str.join Pre.space (Label.words (Label.to_ascii "Apoptosis"))
    ∧ (Label.is_ascii "R-HSA-109581" = true →
       Label.Pathway_ID index = Some "R-HSA-109581")
    ∧ ∀ ws, Forall (λ w, Label.word w = true) ws →
            "Apoptosis" = Str.join Pre.space ws →
            Label.is_ascii "Apoptosis" = true →
            Label.Pathway index = "Apoptosis".
Proof.
  assert (Label.word (Label.to_ascii "R-HSA-109581") = true) as H
    by reflexivity.
  split; [exact H|]. exact (pathway_label_decoded "Apoptosis" "R-HSA-109581" H).
Defined.

(** A name with characters that are not ASCII is not got back: the next
    line character 133 between [a] and [b] is whitespace to [str.split],
    and the folding drops it before the label is decoded; the accent of the
    letter 233 is lost. *)
Example pathway_label_folded :
  Label.Pathway (Label.label name_nel "R-1") = "a b"
  ∧ Label.Pathway (Label.to_ascii (Label.label name_nel "R-1")) = "ab"
  ∧ Label.Pathway (Label.to_ascii (Label.label name_accent "R-2")) = "cafe".
Proof. by vm_compute. Qed.

(** ** Reactome: serialization for the knowledge graph *)

Section KGFacts.
Context {ID : Type} (str : ID → string) (geneid_lookup : dict ID).
Context (index : list string).

Local Abbreviation Pathway := (KG.Pathway index).
Local Abbreviation Pathway_ID := (KG.Pathway_ID index).

Lemma foldl_dict_get {V} (f : string → V) ls d l :
  dict_get (foldl (λ d i, dict_set d i (f i)) d ls) l
  = if decide (l ∈ ls) then Some (f l) else dict_get d l.
Proof.
  revert d. induction ls as [|x ls IH]; intros d.
  - cbn [foldl]. by rewrite decide_False by apply not_elem_of_nil.
  - cbn [foldl]. rewrite IH. destruct (decide (l ∈ ls)) as [Hin|Hnin].
    + by rewrite decide_True by (by apply list_elem_of_further).
    + destruct (decide (x = l)) as [->|Hne].
      * rewrite decide_True by apply list_elem_of_here. apply dict_get_set_eq.
      * rewrite decide_False by (intros [->|?]%elem_of_cons; tauto).
        by apply dict_get_set_ne.
Qed.

Lemma to_dict_get {V} (f : string → V) l :
  dict_get (KG.to_dict index f) l = if decide (l ∈ index) then Some (f l) else None.
Proof. unfold KG.to_dict. by rewrite foldl_dict_get. Qed.

Lemma to_dict_keys {V} (f : string → V) l :
  l ∈ keys (KG.to_dict index f) ↔ l ∈ index.
Proof.
  split.
  - intros [v Hv]%keys_dict_get. rewrite to_dict_get in Hv.
    by destruct (decide (l ∈ index)).
  - intros Hin. apply (dict_get_Some_keys _ _ (f l)).
    by rewrite to_dict_get, decide_True.
Qed.

Lemma getitem_to_dict {V} (f : string → V) l :
  dict_getitem (KG.to_dict index f) l
  = if decide (l ∈ index) then Ok (f l) else Raise (KeyError [l]).
Proof.
  unfold dict_getitem. rewrite to_dict_get. by destruct (decide (l ∈ index)).
Qed.

Lemma gene_nodes_get ks d :
  ks ⊆ keys geneid_lookup →
  ∃ d', for_each ks (KG.gene_node str geneid_lookup) d = Ok d'
        ∧ ∀ k, dict_get d' k
               = if decide (k ∈ ks)
                 then KG.gene_entry str k <$> dict_get geneid_lookup k
                 else dict_get d k.
Proof.
  revert d. induction ks as [|k0 ks IH]; intros d Hks.
  - exists d. split; [done|]. intros k.
    by rewrite decide_False by apply not_elem_of_nil.
  - assert (k0 ∈ keys geneid_lookup) as Hk0 by (apply Hks, list_elem_of_here).
    destruct (keys_dict_get _ _ Hk0) as [id Hid].
    destruct (IH (dict_set d k0 (KG.gene_entry str k0 id))) as (d' & Hd' & Hget).
    { intros k Hk. by apply Hks, list_elem_of_further. }
    exists d'. split.
    + assert (KG.gene_node str geneid_lookup k0 d
              = Ok (dict_set d k0 (KG.gene_entry str k0 id))) as Hbody.
      { unfold KG.gene_node, dict_getitem. by rewrite Hid. }
      cbn [for_each]. rewrite Hbody. exact Hd'.
    + intros k. rewrite Hget. destruct (decide (k ∈ ks)) as [Hin|Hnin].
      * by rewrite decide_True by (by apply list_elem_of_further).
      * destruct (decide (k0 = k)) as [->|Hne].
        -- rewrite decide_True by apply list_elem_of_here.
           by rewrite dict_get_set_eq, Hid.
        -- rewrite decide_False by (intros [->|?]%elem_of_cons; tauto).
           by apply dict_get_set_ne.
Qed.

Lemma pathway_nodes_get ls d :
  ls ⊆ index →
  ∃ d', for_each ls (KG.pathway_node index) d = Ok d'
        ∧ ∀ k, dict_get d' k
               = match last (filter (λ l, Label.Pathway l = k) ls) with
                 | Some l => Some (KG.pathway_entry (Label.Pathway l)
                                     (Label.Pathway_ID l))
                 | None => dict_get d k
                 end.
Proof.
  revert d. induction ls as [|l0 ls IH]; intros d Hls.
  - exists d. by split.
  - assert (l0 ∈ index) as Hl0 by (apply Hls, list_elem_of_here).
    destruct (IH (dict_set d (Label.Pathway l0)
                    (KG.pathway_entry (Label.Pathway l0) (Label.Pathway_ID l0))))
      as (d' & Hd' & Hget).
    { intros k Hk. by apply Hls, list_elem_of_further. }
    exists d'. split.
    + assert (KG.pathway_node index l0 d
              = Ok (dict_set d (Label.Pathway l0)
                      (KG.pathway_entry (Label.Pathway l0) (Label.Pathway_ID l0))))
        as Hbody.
      { unfold KG.pathway_node, KG.Pathway, KG.Pathway_ID.
        by rewrite !getitem_to_dict, !decide_True by done. }
      cbn [for_each]. rewrite Hbody. exact Hd'.
    + intros k. rewrite Hget. destruct (decide (Label.Pathway l0 = k)) as [Hk|Hk].
      * rewrite filter_cons_True by done.
        destruct (filter (λ l, Label.Pathway l = k) ls) as [|l1 ls1] eqn:E.
        -- simpl. by rewrite <-Hk, dict_get_set_eq.
        -- rewrite last_cons_cons.
           destruct (last (l1 :: ls1)) eqn:E1; [done|].
           by apply last_None in E1.
      * rewrite filter_cons_False by done.
        destruct (last (filter (λ l, Label.Pathway l = k) ls)); [done|].
        by apply dict_get_set_ne.
Qed.

Lemma last_filter_Some {A} (P : A → Prop) `{∀ x, Decision (P x)} l x :
  last (filter P l) = Some x → x ∈ l ∧ P x.
Proof.
  intros Hlast. assert (x ∈ filter P l) as Hin.
  { apply last_Some in Hlast as [l' ->]. apply elem_of_app. right.
    apply list_elem_of_here. }
  apply list_elem_of_filter in Hin. tauto.
Qed.

Lemma last_filter_None {A} (P : A → Prop) `{∀ x, Decision (P x)} l x :
  last (filter P l) = None → x ∈ l → ¬ P x.
Proof.
  intros Hlast Hx HP. apply last_None in Hlast.
  assert (x ∈ filter P l) as Hin by (by apply list_elem_of_filter).
  rewrite Hlast in Hin. by apply elem_of_nil in Hin.
Qed.

(** What [nodes] holds under a key. *)
Lemma nodes_get :
  ∃ ns, KG.nodes str geneid_lookup index = Ok ns
        ∧ ∀ k, dict_get ns k
               = match last (filter (λ l, Label.Pathway l = k) (keys Pathway)) with
                 | Some l => Some (KG.pathway_entry (Label.Pathway l)
                                     (Label.Pathway_ID l))
                 | None => KG.gene_entry str k <$> dict_get geneid_lookup k
                 end.
Proof.
  destruct (gene_nodes_get (keys geneid_lookup) []) as (ns1 & Hns1 & Hget1);
    [done|].
  destruct (pathway_nodes_get (keys Pathway) ns1) as (ns & Hns & Hget).
  { intros l. apply to_dict_keys. }
  exists ns. split.
  - unfold KG.nodes. rewrite Hns1. exact Hns.
  - intros k. rewrite Hget.
    destruct (last (filter (λ l, Label.Pathway l = k) (keys Pathway))); [done|].
    rewrite Hget1. destruct (decide (k ∈ keys geneid_lookup)) as [Hin|Hnin]; [done|].
    destruct (dict_get geneid_lookup k) as [id|] eqn:E; [|done].
    by apply dict_get_Some_keys in E.
Qed.

End KGFacts.

Section ForEachFlat.
Context {A S : Type}.

Lemma for_each_ext (b1 b2 : A → S → result S) xs s :
  (∀ x s, b1 x s = b2 x s) → for_each xs b1 s = for_each xs b2 s.
Proof.
  intros Hb. revert s. induction xs as [|x xs IH]; intros s; [done|].
  cbn [for_each]. rewrite Hb. destruct (b2 x s) as [s'|e]; [apply IH|done].
Qed.

Lemma for_each_app (body : A → S → result S) xs ys s :
  for_each (xs ++ ys) body s = s' ← for_each xs body s; for_each ys body s'.
Proof.
  revert s. induction xs as [|x xs IH]; intros s; [done|].
  cbn [app for_each]. destruct (body x s) as [s'|e]; [apply IH|done].
Qed.

Lemma for_each_fmap {B} (g : B → A) (body : A → S → result S) l s :
  for_each (g <$> l) body s = for_each l (λ x, body (g x)) s.
Proof.
  revert s. induction l as [|x l IH]; intros s; [done|].
  rewrite fmap_cons. cbn [for_each].
  destruct (body (g x) s) as [s'|e]; [apply IH|done].
Qed.

Lemma for_each_bind {B} (f : B → list A) (body : A → S → result S) xs s :
  for_each (x ← xs; f x) body s
  = for_each xs (λ x s, for_each (f x) body s) s.
Proof.
  revert s. induction xs as [|x xs IH]; intros s; [done|].
  rewrite bind_cons, for_each_app. cbn [for_each].
  destruct (for_each (f x) body s) as [s'|e]; [apply IH|done].
Qed.

End ForEachFlat.

Section EdgeFacts.
Context {ID : Type} (str : ID → string) (geneid_lookup : dict ID).
Context (index : list string) (binary_matrix : KG.frame).

Local Abbreviation edge_body := (KG.edge_body str geneid_lookup index).
Local Abbreviation ones := (KG.ones binary_matrix).
Local Abbreviation edges := (KG.edges str geneid_lookup index binary_matrix).

(** The two loops are one loop over the cells that hold 1. *)
Lemma edges_flat :
  edges = for_each ones (λ cell, edge_body cell.1 cell.2) [].
Proof.
  unfold KG.edges, KG.ones. rewrite for_each_bind. apply for_each_ext.
  intros [i column] es. cbn [fst snd]. by rewrite for_each_fmap.
Qed.

Lemma edge_body_Ok column gene es es' :
  edge_body column gene es = Ok es' →
  ∃ id, column ∈ index ∧ dict_get geneid_lookup gene = Some id
        ∧ es' = (es ++ [KG.edge_entry str gene (Label.Pathway column) id
                          (Label.Pathway_ID column)])%list.
Proof.
  unfold KG.edge_body, KG.Pathway, KG.Pathway_ID.
  rewrite !getitem_to_dict. destruct (decide (column ∈ index)); [|done].
  cbn. unfold dict_getitem. destruct (dict_get geneid_lookup gene) as [id|]; [|done].
  cbn. intros [= <-]. by exists id.
Qed.

Lemma edge_body_Raise column gene es e :
  edge_body column gene es = Raise e →
  ((column ∉ index) ∧ e = KeyError [column])
  ∨ ((gene ∉ keys geneid_lookup) ∧ e = KeyError [gene]).
Proof.
  unfold KG.edge_body, KG.Pathway, KG.Pathway_ID.
  rewrite !getitem_to_dict. destruct (decide (column ∈ index)).
  - cbn. unfold dict_getitem.
    destruct (dict_get geneid_lookup gene) as [id|] eqn:E; [done|].
    cbn. intros [= <-]. right. split; [|done].
    intros [id Hid]%keys_dict_get. congruence.
  - cbn. intros [= <-]. by left.
Qed.

Lemma cells_Ok cells es es' :
  for_each cells (λ cell, edge_body cell.1 cell.2) es = Ok es' →
  ∃ new, es' = (es ++ new)%list
    ∧ Forall2 (λ cell e,
        ∃ id, cell.1 ∈ index ∧ dict_get geneid_lookup cell.2 = Some id
              ∧ e = KG.edge_entry str cell.2 (Label.Pathway cell.1) id
                      (Label.Pathway_ID cell.1)) cells new.
Proof.
  revert es. induction cells as [|cell cells IH]; intros es.
  - intros [= <-]. exists []. by rewrite app_nil_r.
  - cbn [for_each].
    destruct (edge_body cell.1 cell.2 es) as [es1|e] eqn:E; [|done].
    cbn. intros (new & -> & Hnew)%IH.
    apply edge_body_Ok in E as (id & Hcol & Hid & ->).
    eexists (_ :: new). rewrite <-(assoc_L (++)). split; [done|].
    apply Forall2_cons. split; [by exists id|done].
Qed.

Lemma cells_Raise cells es e :
  for_each cells (λ cell, edge_body cell.1 cell.2) es = Raise e →
  ∃ cell, cell ∈ cells
    ∧ (((cell.1 ∉ index) ∧ e = KeyError [cell.1])
       ∨ ((cell.2 ∉ keys geneid_lookup) ∧ e = KeyError [cell.2])).
Proof.
  revert es. induction cells as [|cell cells IH]; intros es; [done|].
  cbn [for_each].
  destruct (edge_body cell.1 cell.2 es) as [es1|e1] eqn:E.
  - cbn. intros (cell' & Hin & Hbad)%IH. exists cell'.
    split; [by apply list_elem_of_further|done].
  - cbn. intros [= <-]. exists cell. split; [apply list_elem_of_here|].
    by apply edge_body_Raise in E.
Qed.

End EdgeFacts.

(** X21: the two loops over [nodes] raise no exception.  The keys of
    [nodes] are the gene symbols and the pathway names; every pathway name
    holds a pathway node (with the identifier of one of the labels of that
    name); a gene holds its gene node when no pathway has its symbol as
    name, a pathway node being written over it otherwise. *)
Theorem nodes_lookup {ID} (str : ID → string) geneid_lookup index :
  ∃ ns, KG.nodes str geneid_lookup index = Ok ns
    ∧ (∀ k, is_Some (dict_get ns k)
            ↔ k ∈ keys geneid_lookup ∨ ∃ l, l ∈ index ∧ Label.Pathway l = k)
    ∧ (∀ l, l ∈ index →
         ∃ l', l' ∈ index ∧ Label.Pathway l' = Label.Pathway l
               ∧ dict_get ns (Label.Pathway l)
                 = Some (KG.pathway_entry (Label.Pathway l)
                           (Label.Pathway_ID l')))
    ∧ (∀ gene id, dict_get geneid_lookup gene = Some id →
         (∀ l, l ∈ index → Label.Pathway l ≠ gene) →
         dict_get ns gene = Some (KG.gene_entry str gene id)).
Proof.
  destruct (nodes_get str geneid_lookup index) as (ns & Hns & Hget).
  exists ns. split; [done|]. split; [|split].
  - intros k. rewrite Hget.
    destruct (last (filter (λ l, Label.Pathway l = k) (keys (KG.Pathway index))))
      as [l|] eqn:E.
    + apply last_filter_Some in E as [Hl Hk]. apply to_dict_keys in Hl.
      split; [|by eauto]. intros _. right. by exists l.
    + split.
      * intros [n Hn]. left.
        destruct (dict_get geneid_lookup k) as [id|] eqn:Eg; [|done].
        by apply dict_get_Some_keys in Eg.
      * intros [Hk|(l & Hl & Hk)].
        -- destruct (keys_dict_get _ _ Hk) as [id ->]. by eexists.
        -- exfalso. apply (last_filter_None _ _ l E); [|done].
           by apply to_dict_keys.
  - intros l Hl. rewrite Hget.
    destruct (last (filter (λ l', Label.Pathway l' = Label.Pathway l)
                      (keys (KG.Pathway index)))) as [l'|] eqn:E.
    + apply last_filter_Some in E as [Hl' Hk]. apply to_dict_keys in Hl'.
      exists l'. by rewrite Hk.
    + exfalso. apply (last_filter_None _ _ l E); [|done]. by apply to_dict_keys.
  - intros gene id Hid Hno. rewrite Hget.
    destruct (last (filter (λ l, Label.Pathway l = gene) (keys (KG.Pathway index))))
      as [l|] eqn:E.
    + apply last_filter_Some in E as [Hl Hk]. apply to_dict_keys in Hl.
      by destruct (Hno l Hl).
    + by rewrite Hid.
Qed.

(** X22: when the loop over [edges] ends without exception, [edges]
    holds one edge per cell of the matrix that is 1, column by column and
    within a column in the order of the rows: from the gene of the row to
    the decoded name of the column, with the identifiers of both. *)
Theorem edges_one_per_cell {ID} (str : ID → string) geneid_lookup index
    binary_matrix es :
  KG.edges str geneid_lookup index binary_matrix = Ok es →
  Forall2 (λ cell e,
      ∃ id, cell.1 ∈ index ∧ dict_get geneid_lookup cell.2 = Some id
            ∧ e = KG.edge_entry str cell.2 (Label.Pathway cell.1) id
                    (Label.Pathway_ID cell.1))
    (KG.ones binary_matrix) es.
Proof.
  rewrite edges_flat. intros (new & -> & Hnew)%cells_Ok. done.
Qed.

Lemma edges_one_per_cell_witness :
  KG.edges pretty kg_geneids kg_index kg_matrix = Ok kg_edges
  ∧ Forall2 (λ cell e,
      ∃ id, cell.1 ∈ kg_index ∧ dict_get kg_geneids cell.2 = Some id
            ∧ e = KG.edge_entry pretty cell.2 (Label.Pathway cell.1) id
                    (Label.Pathway_ID cell.1))
    (KG.ones kg_matrix) kg_edges.
Proof.
  assert (KG.edges pretty kg_geneids kg_index kg_matrix = Ok kg_edges) as H
    by (vm_compute; reflexivity).
  split; [exact H|].
  exact (edges_one_per_cell pretty kg_geneids kg_index kg_matrix kg_edges H).
Defined.

(** X23: the loop over [edges] raises an exception exactly when some
    cell that is 1 stands in a column whose label is not in the lookup or
    on a row whose gene has no identifier; the exception is the [KeyError]
    of such a label or gene.  Columns and rows without a 1 are never
    looked up. *)
Theorem edges_raise_iff {ID} (str : ID → string) geneid_lookup index
    binary_matrix :
  ((∃ e, KG.edges str geneid_lookup index binary_matrix = Raise e)
   ↔ ∃ cell, cell ∈ KG.ones binary_matrix
             ∧ (cell.1 ∉ index ∨ cell.2 ∉ keys geneid_lookup))
  ∧ ∀ e, KG.edges str geneid_lookup index binary_matrix = Raise e →
         ∃ cell, cell ∈ KG.ones binary_matrix
           ∧ (((cell.1 ∉ index) ∧ e = KeyError [cell.1])
              ∨ ((cell.2 ∉ keys geneid_lookup) ∧ e = KeyError [cell.2])).
Proof.
  rewrite edges_flat. split; [split|].
  - intros [e (cell & Hin & Hbad)%cells_Raise]. exists cell. split; [done|].
    destruct Hbad as [[? _]|[? _]]; tauto.
  - intros (cell & Hin & Hbad).
    destruct (for_each _ _ _) as [es|e] eqn:E; [|by exists e]. exfalso.
    apply cells_Ok in E as (new & _ & Hnew).
    assert (Forall (λ c, c.1 ∈ index ∧ c.2 ∈ keys geneid_lookup)
              (KG.ones binary_matrix)) as Hall.
    { clear Hin.
      induction Hnew as [|c e' cs es' (id & Hc & Hid & _) _ IH];
        [by constructor|].
      constructor; [|done].
      split; [done|]. by apply dict_get_Some_keys in Hid. }
    rewrite Forall_forall in Hall. destruct (Hall cell Hin). tauto.
  - intros e. apply cells_Raise.
Qed.

(** X24: every edge starts and ends at a key of [nodes], and the node at
    its end is a pathway node. *)
Theorem edge_ends_are_nodes {ID} (str : ID → string) geneid_lookup index
    binary_matrix ns es :
  KG.nodes str geneid_lookup index = Ok ns →
  KG.edges str geneid_lookup index binary_matrix = Ok es →
  ∀ e, e ∈ es →
    is_Some (dict_get ns (KG.source e))
    ∧ ∃ n, dict_get ns (KG.target e) = Some n ∧ KG.node_type n = "pathway".
Proof.
  intros Hns Hes e He.
  destruct (nodes_get str geneid_lookup index) as (ns' & Hns' & Hget).
  assert (ns' = ns) as -> by congruence.
  rewrite edges_flat in Hes. apply cells_Ok in Hes as (new & -> & Hnew).
  apply list_elem_of_lookup in He as [i Hi].
  destruct (Forall2_lookup_r _ _ _ _ _ Hnew Hi)
    as (cell & _ & id & Hcol & Hid & ->).
  cbn [KG.source KG.target KG.edge_entry]. rewrite !Hget. split.
  - destruct (last _); [done|]. by rewrite Hid.
  - destruct (last (filter (λ l, Label.Pathway l = Label.Pathway cell.1)
                      (keys (KG.Pathway index)))) as [l|] eqn:E.
    + by eexists.
    + exfalso. apply (last_filter_None _ _ cell.1 E); [|done].
      by apply to_dict_keys.
Qed.

Lemma edge_ends_are_nodes_witness :
  KG.nodes pretty kg_geneids kg_index = Ok kg_nodes
  ∧ KG.edges pretty kg_geneids kg_index kg_matrix = Ok kg_edges
  ∧ ∀ e, e ∈ kg_edges →
      is_Some (dict_get kg_nodes (KG.source e))
      ∧ ∃ n, dict_get kg_nodes (KG.target e) = Some n
             ∧ KG.node_type n = "pathway".
Proof.
  assert (KG.nodes pretty kg_geneids kg_index = Ok kg_nodes) as Hn
    by (vm_compute; reflexivity).
  assert (KG.edges pretty kg_geneids kg_index kg_matrix = Ok kg_edges) as He
    by (vm_compute; reflexivity).
  split; [exact Hn|]. split; [exact He|].
  exact (edge_ends_are_nodes pretty kg_geneids kg_index kg_matrix
           kg_nodes kg_edges Hn He).
Defined.

(** The serialization of the two pathways and two genes: three edges, the
    first column first. *)
Example kg_edges_example :
  (λ e, (KG.source e, KG.target e, KG.source_id e, KG.target_id e)) <$> kg_edges
  = [("TP53", "Apoptosis", "7157", "R-HSA-109581");
     ("BAX", "Apoptosis", "581", "R-HSA-109581");
     ("TP53", "Cell Cycle", "7157", "R-HSA-1640170")].
Proof. vm_compute. reflexivity. Qed.
